(** * drivers/net/skeleton.c: the skeleton Ethernet driver

    A shallow embedding of the driver of [drivers/net/skeleton.c] and the
    properties of its coordination protocol: the two watchdog timers, the
    poll callback, the receive dispatch, the interrupt handler and the
    ifup/ifdown/txavail entry points.

    The driver is one statically allocated [struct skel_driver_s]
    ([g_skel[0]]).  Every driver function is a function on a [world] that
    holds that structure, the state of what the driver calls (watchdogs,
    interrupt controller, CPU interrupt mask, the adapter's receive queue)
    and the history of calls made so far.

    The source is a skeleton: its hardware accesses are comments.  The
    embedding follows the statements that are there.  A comment that only
    announces a hardware access ("Send the packet", "Then reset the
    hardware", "Get and clear interrupt status bits") is not a statement
    and adds nothing to a function below.  The one place where the source
    cannot be read without the hardware is the receive loop, whose
    condition is empty; see [skel_receive_loop]. *)

From Stdlib Require Import ZArith List Bool Lia.
Import ListNotations.
Local Open Scope Z_scope.

(** ** Constants *)

Definition OK : Z := 0.
Definition EAGAIN : Z := 11.

(** Ethernet types of [net/uip/uip-arp.h]. *)
Definition UIP_ETHTYPE_ARP : Z := 0x0806.
Definition UIP_ETHTYPE_IP : Z := 0x0800.
Definition UIP_ETHTYPE_IP6 : Z := 0x86dd.

Definition skeleton_POLLHSEC : Z := 1 * 2.

(** [d_len] is a [uint16]. *)
Definition u16 (z : Z) : Z := z mod 65536.

(** ** Watchdogs, calls and the call history *)

(** The two watchdogs of [struct skel_driver_s]. *)
Inductive wd_id := WdTxPoll | WdTxTimeout.

(** The functions given to [wd_start] as expiry handlers. *)
Inductive wd_entry := Hpolltimer | Htxtimeout.

(** A watchdog is idle or armed with a delay (in ticks) and a handler; the
    handler's argument is always the one driver structure. *)
Inductive wdog := Idle | Armed (delay : Z) (entry : wd_entry).

Definition wd_armed (t : wdog) : bool :=
  match t with Idle => false | Armed _ _ => true end.

(** The driver's functions. *)
Inductive fn :=
| Ftransmit | Fuiptxpoll | Freceive | Ftxdone | Finterrupt
| Ftxtimeout | Fpolltimer | Fifup | Fifdown | Ftxavail | Finitialize.

(** What is recorded in the history: the entry into a driver function, and
    every call the driver makes to the OS and to the network stack.
    [EvRxCopy] marks one pass through the body of the receive loop. *)
Inductive event :=
| EvCall (f : fn)
| EvWdCreate (t : wd_id)
| EvWdStart (t : wd_id) (delay : Z) (entry : wd_entry)
| EvWdCancel (t : wd_id)
| EvIrqsave
| EvIrqrestore
| EvUpEnableIrq
| EvUpDisableIrq
| EvIrqAttach
| EvNetdevRegister
| EvUipArpIpin
| EvUipInput
| EvUipArpArpin
| EvUipArpOut
| EvUipPoll
| EvUipTimer (hsec : Z)
| EvRxCopy.

Definition fn_eqb (f g : fn) : bool :=
  match f, g with
  | Ftransmit, Ftransmit | Fuiptxpoll, Fuiptxpoll | Freceive, Freceive
  | Ftxdone, Ftxdone | Finterrupt, Finterrupt | Ftxtimeout, Ftxtimeout
  | Fpolltimer, Fpolltimer | Fifup, Fifup | Fifdown, Fifdown
  | Ftxavail, Ftxavail | Finitialize, Finitialize => true
  | _, _ => false
  end.

(** ** The world *)

(** [sk_bifup], [sk_txpoll], [sk_txtimeout] and [sk_dev] ([d_buf], [d_len])
    are the fields of [struct skel_driver_s] the code reads or writes.
    [irq_enabled] is the state of the line [CONFIG_skeleton_IRQ] at the
    interrupt controller, [irq_masked] the CPU interrupt mask that
    [irqsave]/[irqrestore] handle.  [hw_rxq], [hw_rx_ready] and
    [hw_tx_done] belong to the adapter: the frames it holds for the driver
    and the two bits of its interrupt status. *)
Record world := mkWorld {
  sk_bifup : bool;
  sk_txpoll : wdog;
  sk_txtimeout : wdog;
  d_buf : list Z;
  d_len : Z;
  irq_enabled : bool;
  irq_masked : bool;
  hw_rxq : list (list Z);
  hw_rx_ready : bool;
  hw_tx_done : bool;
  trace : list event
}.

Definition set_bifup (b : bool) (w : world) : world :=
  mkWorld b (sk_txpoll w) (sk_txtimeout w) (d_buf w) (d_len w)
          (irq_enabled w) (irq_masked w) (hw_rxq w) (hw_rx_ready w)
          (hw_tx_done w) (trace w).

Definition set_txpoll (t : wdog) (w : world) : world :=
  mkWorld (sk_bifup w) t (sk_txtimeout w) (d_buf w) (d_len w)
          (irq_enabled w) (irq_masked w) (hw_rxq w) (hw_rx_ready w)
          (hw_tx_done w) (trace w).

Definition set_txtimeout (t : wdog) (w : world) : world :=
  mkWorld (sk_bifup w) (sk_txpoll w) t (d_buf w) (d_len w)
          (irq_enabled w) (irq_masked w) (hw_rxq w) (hw_rx_ready w)
          (hw_tx_done w) (trace w).

Definition set_packet (buf : list Z) (len : Z) (w : world) : world :=
  mkWorld (sk_bifup w) (sk_txpoll w) (sk_txtimeout w) buf (u16 len)
          (irq_enabled w) (irq_masked w) (hw_rxq w) (hw_rx_ready w)
          (hw_tx_done w) (trace w).

Definition set_irq_enabled (b : bool) (w : world) : world :=
  mkWorld (sk_bifup w) (sk_txpoll w) (sk_txtimeout w) (d_buf w) (d_len w)
          b (irq_masked w) (hw_rxq w) (hw_rx_ready w)
          (hw_tx_done w) (trace w).

Definition set_irq_masked (b : bool) (w : world) : world :=
  mkWorld (sk_bifup w) (sk_txpoll w) (sk_txtimeout w) (d_buf w) (d_len w)
          (irq_enabled w) b (hw_rxq w) (hw_rx_ready w)
          (hw_tx_done w) (trace w).

Definition set_hw_rxq (q : list (list Z)) (w : world) : world :=
  mkWorld (sk_bifup w) (sk_txpoll w) (sk_txtimeout w) (d_buf w) (d_len w)
          (irq_enabled w) (irq_masked w) q (hw_rx_ready w)
          (hw_tx_done w) (trace w).

Definition set_hw_status (rx tx : bool) (w : world) : world :=
  mkWorld (sk_bifup w) (sk_txpoll w) (sk_txtimeout w) (d_buf w) (d_len w)
          (irq_enabled w) (irq_masked w) (hw_rxq w) rx tx (trace w).

(** Appends a call to the history. *)
Definition log (e : event) (w : world) : world :=
  mkWorld (sk_bifup w) (sk_txpoll w) (sk_txtimeout w) (d_buf w) (d_len w)
          (irq_enabled w) (irq_masked w) (hw_rxq w) (hw_rx_ready w)
          (hw_tx_done w) (trace w ++ [e]).

Definition wd_get (t : wd_id) (w : world) : wdog :=
  match t with WdTxPoll => sk_txpoll w | WdTxTimeout => sk_txtimeout w end.

Definition wd_set (t : wd_id) (s : wdog) (w : world) : world :=
  match t with WdTxPoll => set_txpoll s w | WdTxTimeout => set_txtimeout s w end.

(** ** What the platform and the network stack contribute

    [CLK_TCK] (ticks per second), the IPv6 switch and the byte order of the
    CPU are configuration.  The network stack is not under [src/]; what it
    leaves in the device buffer when it returns is not decided by the
    driver, so it is a parameter: [stack_reply] gives the buffer contents
    and length left by [uip_input], [uip_arp_arpin] and [uip_arp_out], and
    [stack_conns] gives, for one poll pass, the packet each connection in
    turn puts in the buffer.  Both may depend on everything that happened
    before (the history up to the call). *)
Record platform := mkPlatform {
  CLK_TCK : Z;
  CONFIG_NET_IPv6 : bool;
  big_endian : bool;
  stack_reply : list event -> list Z * Z;
  stack_conns : list event -> list (list Z * Z)
}.

Definition set_trace (tr : list event) (w : world) : world :=
  mkWorld (sk_bifup w) (sk_txpoll w) (sk_txtimeout w) (d_buf w) (d_len w)
          (irq_enabled w) (irq_masked w) (hw_rxq w) (hw_rx_ready w)
          (hw_tx_done w) tr.

(** ** Reading the history *)

Definition count (p : event -> bool) (tr : list event) : nat :=
  length (filter p tr).

Definition is_call (f : fn) (e : event) : bool :=
  match e with EvCall g => fn_eqb f g | _ => false end.

(** How many times [f] was entered. *)
Definition calls (f : fn) (tr : list event) : nat := count (is_call f) tr.

Definition is_uip_poll (e : event) : bool :=
  match e with EvUipPoll => true | _ => false end.

Definition is_uip_arp_out (e : event) : bool :=
  match e with EvUipArpOut => true | _ => false end.

Definition is_rx_copy (e : event) : bool :=
  match e with EvRxCopy => true | _ => false end.

(** A frame is handed to the stack by [uip_input] or [uip_arp_arpin]. *)
Definition is_stack_input (e : event) : bool :=
  match e with EvUipInput | EvUipArpArpin => true | _ => false end.

Definition stack_inputs (tr : list event) : nat := count is_stack_input tr.

Definition is_txtimeout_cancel (e : event) : bool :=
  match e with EvWdCancel WdTxTimeout => true | _ => false end.

(** The calls the poll callback [skel_uiptxpoll] can make, itself
    included. *)
Definition is_txpoll_event (e : event) : bool :=
  match e with
  | EvCall Fuiptxpoll | EvCall Ftransmit | EvUipArpOut
  | EvWdStart WdTxTimeout _ Htxtimeout => true
  | _ => false
  end.

(** The transmits that are outstanding after a history: a call of
    [skel_transmit] admits one; a completion ([skel_txdone]), a timeout
    ([skel_txtimeout]) or [skel_ifdown] leaves none. *)
Definition tx_account (n : nat) (e : event) : nat :=
  match e with
  | EvCall Ftransmit => S n
  | EvCall Ftxdone | EvCall Ftxtimeout | EvCall Fifdown => O
  | _ => n
  end.

Definition outstanding (tr : list event) : nat := fold_left tx_account tr O.

(** ** Boards and frames used in the examples *)

(** A little-endian IPv4 board with 100 ticks per second, whose stack
    always answers with [reply] and offers the packets [conns] in every
    poll pass. *)
Definition board (reply : list Z * Z) (conns : list (list Z * Z)) : platform :=
  mkPlatform 100 false false (fun _ => reply) (fun _ => conns).

Definition eth_header (hi lo : Z) : list Z :=
  [0xff; 0xff; 0xff; 0xff; 0xff; 0xff; 0x02; 0x00; 0x00; 0x00; 0x00; 0x01; hi; lo].

(** An ARP request (28 bytes after the header) and a short IP datagram. *)
Definition arp_frame : list Z := eth_header 0x08 0x06 ++ repeat 0 28.
Definition ip_frame : list Z := eth_header 0x08 0x00 ++ repeat 0 20.


Section Driver.

Variable P : platform.

Definition skeleton_WDDELAY : Z := 1 * CLK_TCK P.
Definition skeleton_TXTIMEOUT : Z := 60 * CLK_TCK P.

(** ** The OS services the driver calls *)

(** Modelled from the spec: the watchdog services of [wdog.h], which are
    not under [src/].  A timer is Idle or Armed; arming an armed timer
    restarts it; cancelling is unconditional, and cancelling an idle timer
    changes nothing and is no error. *)
Definition wd_start (t : wd_id) (delay : Z) (entry : wd_entry) (w : world) : world :=
  wd_set t (Armed delay entry) (log (EvWdStart t delay entry) w).

Definition wd_cancel (t : wd_id) (w : world) : world :=
  wd_set t Idle (log (EvWdCancel t) w).

Definition wd_create (t : wd_id) (w : world) : world :=
  wd_set t Idle (log (EvWdCreate t) w).

(** [irqsave] masks the CPU's interrupts and returns the mask it found;
    [irqrestore] puts a saved mask back. *)
Definition irqsave (w : world) : world * bool :=
  (set_irq_masked true (log EvIrqsave w), irq_masked w).

Definition irqrestore (flags : bool) (w : world) : world :=
  set_irq_masked flags (log EvIrqrestore w).

Definition up_enable_irq (w : world) : world :=
  set_irq_enabled true (log EvUpEnableIrq w).

Definition up_disable_irq (w : world) : world :=
  set_irq_enabled false (log EvUpDisableIrq w).

(** ** The network stack *)

(** The stack returns, leaving a packet (possibly of length 0) in the
    device buffer. *)
Definition stack_returns (w : world) : world :=
  set_packet (fst (stack_reply P (trace w))) (snd (stack_reply P (trace w))) w.

Definition uip_arp_ipin (w : world) : world := log EvUipArpIpin w.
Definition uip_input (w : world) : world := stack_returns (log EvUipInput w).
Definition uip_arp_arpin (w : world) : world := stack_returns (log EvUipArpArpin w).
Definition uip_arp_out (w : world) : world := stack_returns (log EvUipArpOut w).

(** Modelled from the spec: the stack's iteration over its connections
    ([uip_poll] and [uip_timer] are not under [src/]).  Each connection in
    turn may put a packet in the buffer, and the callback is called; the
    callback's result tells the iteration to go on (0) or to stop (anything
    else). *)
Fixpoint uip_foreach_conn (callback : world -> world * Z)
    (conns : list (list Z * Z)) (w : world) : world * Z :=
  match conns with
  | [] => (w, 0)
  | (buf, len) :: rest =>
      let (w1, bstop) := callback (set_packet buf len w) in
      if bstop =? 0 then uip_foreach_conn callback rest w1 else (w1, bstop)
  end.

Definition uip_poll (callback : world -> world * Z) (w : world) : world * Z :=
  let w1 := log EvUipPoll w in
  uip_foreach_conn callback (stack_conns P (trace w1)) w1.

Definition uip_timer (callback : world -> world * Z) (hsec : Z) (w : world)
    : world * Z :=
  let w1 := log (EvUipTimer hsec) w in
  uip_foreach_conn callback (stack_conns P (trace w1)) w1.

(** ** Byte order and the Ethernet header *)

(** [htons]/[HTONS]: the identity on a big-endian CPU, a byte swap of the
    16-bit value otherwise. *)
Definition htons (x : Z) : Z :=
  if big_endian P then Z.land x 0xffff
  else Z.lor (Z.shiftl (Z.land x 0xff) 8) (Z.land (Z.shiftr x 8) 0xff).

Definition byte_at (i : nat) (buf : list Z) : Z := Z.land (nth i buf 0) 0xff.

(** [BUF->type]: the [uint16] the CPU reads at offset 12 of [d_buf], after
    the two 6-byte addresses of [struct uip_eth_hdr]. *)
Definition BUF_type (w : world) : Z :=
  if big_endian P
  then Z.lor (Z.shiftl (byte_at 12 (d_buf w)) 8) (byte_at 13 (d_buf w))
  else Z.lor (Z.shiftl (byte_at 13 (d_buf w)) 8) (byte_at 12 (d_buf w)).

(** ** The driver *)

(** [skel_transmit], lines 153-169. *)
Definition skel_transmit (w : world) : world * Z :=
  let w := log (EvCall Ftransmit) w in
  let w := wd_start WdTxTimeout skeleton_TXTIMEOUT Htxtimeout w in
  (w, OK).

(** [skel_uiptxpoll], lines 192-215. *)
Definition skel_uiptxpoll (w : world) : world * Z :=
  let w := log (EvCall Fuiptxpoll) w in
  let w := if 0 <? d_len w
           then fst (skel_transmit (uip_arp_out w))
           else w in
  (w, 0).

(** The body of the loop of [skel_receive], lines 237-279, on the frame
    that is in [d_buf]. *)
Definition skel_receive_frame (w : world) : world :=
  if BUF_type w =? htons (if CONFIG_NET_IPv6 P then UIP_ETHTYPE_IP6 else UIP_ETHTYPE_IP)
  then
    let w := uip_arp_ipin w in
    let w := uip_input w in
    if 0 <? d_len w
    then fst (skel_transmit (uip_arp_out w))
    else w
  else if BUF_type w =? htons UIP_ETHTYPE_ARP
  then
    let w := uip_arp_arpin w in
    if 0 <? d_len w
    then fst (skel_transmit w)
    else w
  else w.

(** Modelled from the spec: the hardware adapter's [receive_into] and
    [poll_pending_rx], which the source leaves out (the copy from the
    hardware is a comment and the loop condition is empty,
    [while ();]).  [hw_receive_into] moves the oldest pending frame into
    [d_buf] and sets [d_len]; with nothing pending the buffer keeps what
    it held. *)
Definition hw_receive_into (w : world) : world :=
  match hw_rxq w with
  | [] => log EvRxCopy w
  | f :: q => set_hw_rxq q (set_packet f (Z.of_nat (length f)) (log EvRxCopy w))
  end.

Definition hw_rx_pending (w : world) : bool :=
  match hw_rxq w with [] => false | _ :: _ => true end.

(** The [do ... while] of [skel_receive], lines 235-281: the body runs,
    then the condition is tested.  [None] when [fuel] passes through the
    body are not enough to reach the end of the loop. *)
Fixpoint skel_receive_loop (fuel : nat) (w : world) : option world :=
  match fuel with
  | O => None
  | S fuel' =>
      let w := hw_receive_into w in
      let w := skel_receive_frame w in
      if hw_rx_pending w then skel_receive_loop fuel' w else Some w
  end.

(** [skel_receive], lines 233-282.  One pass for each pending frame, and
    one for the [do] when nothing is pending, is fuel enough
    ([skel_receive_loop_spec]). *)
Definition skel_receive (w : world) : world :=
  let w := log (EvCall Freceive) w in
  match skel_receive_loop (S (length (hw_rxq w))) w with
  | Some w' => w'
  | None => w
  end.

(** [skel_txdone], lines 300-311. *)
Definition skel_txdone (w : world) : world :=
  let w := log (EvCall Ftxdone) w in
  let w := wd_cancel WdTxTimeout w in
  fst (uip_poll skel_uiptxpoll w).

(** [skel_interrupt], lines 330-353. *)
Definition skel_interrupt (w : world) : world * Z :=
  let w := log (EvCall Finterrupt) w in
  let w := skel_receive w in
  let w := skel_txdone w in
  (w, OK).

(** [skel_txtimeout], lines 373-384. *)
Definition skel_txtimeout (w : world) : world :=
  let w := log (EvCall Ftxtimeout) w in
  fst (uip_poll skel_uiptxpoll w).

(** [skel_polltimer], lines 403-416. *)
Definition skel_polltimer (w : world) : world :=
  let w := log (EvCall Fpolltimer) w in
  let w := fst (uip_timer skel_uiptxpoll skeleton_POLLHSEC w) in
  wd_start WdTxPoll skeleton_WDDELAY Hpolltimer w.

(** [skel_ifup], lines 435-454 ([ndbg] only prints). *)
Definition skel_ifup (w : world) : world * Z :=
  let w := log (EvCall Fifup) w in
  let w := wd_start WdTxPoll skeleton_WDDELAY Hpolltimer w in
  let w := set_bifup true w in
  let w := up_enable_irq w in
  (w, OK).

(** [skel_ifdown], lines 472-492. *)
Definition skel_ifdown (w : world) : world * Z :=
  let w := log (EvCall Fifdown) w in
  let (w, flags) := irqsave w in
  let w := up_disable_irq w in
  let w := wd_cancel WdTxPoll w in
  let w := wd_cancel WdTxTimeout w in
  let w := set_bifup false w in
  let w := irqrestore flags w in
  (w, OK).

(** [skel_txavail], lines 513-534. *)
Definition skel_txavail (w : world) : world * Z :=
  let w := log (EvCall Ftxavail) w in
  let (w, flags) := irqsave w in
  let w := if sk_bifup w
           then fst (uip_poll skel_uiptxpoll w)
           else w in
  let w := irqrestore flags w in
  (w, OK).

(** [skel_initialize], lines 558-590.  [attach_fails] is what [irq_attach]
    answers.  The [memset] clears the structure, buffer included. *)
Definition skel_initialize (attach_fails : bool) (w : world) : world * Z :=
  let w := log (EvCall Finitialize) w in
  let w := log EvIrqAttach w in
  if attach_fails then (w, - EAGAIN)
  else
    let w := set_packet [] 0 (set_txtimeout Idle (set_txpoll Idle (set_bifup false w))) in
    let w := wd_create WdTxPoll w in
    let w := wd_create WdTxTimeout w in
    let w := log EvNetdevRegister w in
    (w, OK).

(** ** The driver in its environment *)

(** Modelled from the spec: expiry of a watchdog.  An armed timer that
    reaches its deadline becomes idle and its handler runs (and may arm it
    again); an idle timer does not expire. *)
Definition wd_expire (t : wd_id) (w : world) : world :=
  match wd_get t w with
  | Idle => w
  | Armed _ Hpolltimer => skel_polltimer (wd_set t Idle w)
  | Armed _ Htxtimeout => skel_txtimeout (wd_set t Idle w)
  end.

(** The adapter takes in [frames], sets its status bits and raises its
    interrupt; the handler attached by [skel_initialize] runs if the line
    is enabled at the interrupt controller. *)
Definition hw_interrupt (rx tx : bool) (frames : list (list Z)) (w : world) : world :=
  let w := set_hw_status rx tx (set_hw_rxq (hw_rxq w ++ frames) w) in
  if irq_enabled w then fst (skel_interrupt w) else w.

(** What can happen to the driver once it is initialized: the stack calls
    one of the three registered callbacks, the adapter interrupts, a
    watchdog expires.  [OpTransmit] and [OpTxdone] are the two internal
    functions called on their own. *)
Inductive op :=
| OpIfup
| OpIfdown
| OpTxavail
| OpInterrupt (rx tx : bool) (frames : list (list Z))
| OpExpire (t : wd_id)
| OpTransmit
| OpTxdone.

Definition step (o : op) (w : world) : world :=
  match o with
  | OpIfup => fst (skel_ifup w)
  | OpIfdown => fst (skel_ifdown w)
  | OpTxavail => fst (skel_txavail w)
  | OpInterrupt rx tx frames => hw_interrupt rx tx frames w
  | OpExpire t => wd_expire t w
  | OpTransmit => fst (skel_transmit w)
  | OpTxdone => skel_txdone w
  end.

Definition run (ops : list op) (w : world) : world :=
  fold_left (fun w o => step o w) ops w.

(** The machine at power on: nothing enabled, nothing pending. *)
Definition power_on : world :=
  mkWorld false Idle Idle [] 0 false false [] false false [].

(** The driver after a successful [skel_initialize]. *)
Definition g_skel : world := fst (skel_initialize false power_on).

(** ** Invariants and frames used in the proofs *)

(** A watchdog is only ever armed with its own handler. *)
Definition entry_ok (h : wd_entry) (t : wdog) : Prop :=
  match t with
  | Idle => True
  | Armed _ h' => h' = h
  end.

(** The TX-timeout watchdog is armed exactly when the history leaves a
    transmit outstanding. *)
Definition tx_ok (w : world) : Prop :=
  wd_armed (sk_txtimeout w) = (0 <? outstanding (trace w))%nat /\
  entry_ok Htxtimeout (sk_txtimeout w).

(** What the data path (transmit, poll, receive) leaves alone and keeps
    true. *)
Definition datapath (w w' : world) : Prop :=
  sk_bifup w' = sk_bifup w /\
  sk_txpoll w' = sk_txpoll w /\
  irq_enabled w' = irq_enabled w /\
  irq_masked w' = irq_masked w /\
  hw_rx_ready w' = hw_rx_ready w /\
  hw_tx_done w' = hw_tx_done w /\
  (tx_ok w -> tx_ok w').

(** The whole of the driver's invariant: the transmit accounting, the
    handlers of the two watchdogs, and the interrupt line following the
    interface flag. *)
Definition driver_inv (w : world) : Prop :=
  tx_ok w /\
  entry_ok Hpolltimer (sk_txpoll w) /\
  irq_enabled w = sk_bifup w.

(** The device without its history. *)
Definition device_state (w : world)
    : bool * wdog * wdog * list Z * Z * bool * bool * list (list Z) * bool * bool :=
  (sk_bifup w, sk_txpoll w, sk_txtimeout w, d_buf w, d_len w,
   irq_enabled w, irq_masked w, hw_rxq w, hw_rx_ready w, hw_tx_done w).

(** The two events of a [skel_transmit], and the two watchdogs as the
    driver arms them. *)
Definition transmit_events : list event :=
  [EvCall Ftransmit; EvWdStart WdTxTimeout skeleton_TXTIMEOUT Htxtimeout].

Definition armed_txtimeout : wdog := Armed skeleton_TXTIMEOUT Htxtimeout.
Definition armed_txpoll : wdog := Armed skeleton_WDDELAY Hpolltimer.

(** What a pass with the callback [skel_uiptxpoll] over [n] connections
    does: only calls of the callback and what it calls are added to the
    history, the callback ran [n] times, and the TX-timeout watchdog was
    restarted if one of them transmitted and is untouched otherwise. *)
Definition poll_pass (n : nat) (w w' : world) : Prop :=
  datapath w w' /\
  hw_rxq w' = hw_rxq w /\
  exists new,
    trace w' = trace w ++ new /\
    Forall (fun e => is_txpoll_event e = true) new /\
    calls Fuiptxpoll new = n /\
    calls Ftransmit new = count is_uip_arp_out new /\
    sk_txtimeout w' =
      (if (0 <? calls Ftransmit new)%nat then armed_txtimeout else sk_txtimeout w).

(** What one pass through the body of the receive loop adds to the
    history: at most one frame handed to the stack, no copy from the
    hardware, no poll. *)
Definition rx_pass (w w' : world) : Prop :=
  datapath w w' /\
  hw_rxq w' = hw_rxq w /\
  exists new,
    trace w' = trace w ++ new /\
    count is_rx_copy new = 0%nat /\
    calls Ftxdone new = 0%nat /\
    (stack_inputs new <= 1)%nat.

(** What the whole loop does when it takes [n] passes. *)
Definition rx_drain (n : nat) (w w' : world) : Prop :=
  datapath w w' /\
  hw_rxq w' = [] /\
  exists new,
    trace w' = trace w ++ new /\
    count is_rx_copy new = n /\
    calls Ftxdone new = 0%nat /\
    (stack_inputs new <= n)%nat.

(** The adapter interrupting, as an operation. *)
Definition raise (i : bool * bool * list (list Z)) : op :=
  OpInterrupt (fst (fst i)) (snd (fst i)) (snd i).

(** ** The shape of histories and of the watchdogs *)

(** The events that stand alone in a history: all but the two a
    [skel_transmit] writes. *)
Definition is_plain (e : event) : bool :=
  match e with
  | EvCall Ftransmit => false
  | EvWdStart WdTxTimeout _ _ => false
  | _ => true
  end.

Definition is_txtimeout_start (e : event) : bool :=
  match e with EvWdStart WdTxTimeout _ _ => true | _ => false end.

(** A history in which the entry into [skel_transmit] and the start of
    the TX-timeout watchdog only occur together, in that order and with
    the driver's delay and handler. *)
Inductive blocks : list event -> Prop :=
| blocks_nil : blocks []
| blocks_plain (e : event) (tr : list event) :
    is_plain e = true -> blocks tr -> blocks (e :: tr)
| blocks_transmit (tr : list event) :
    blocks tr -> blocks (transmit_events ++ tr).

(** The TX-timeout watchdog is idle or armed as [skel_transmit] arms it. *)
Definition tx_shape (w : world) : Prop :=
  sk_txtimeout w = Idle \/ sk_txtimeout w = armed_txtimeout.

(** [w'] comes after [w]: the history has grown by whole blocks, and the
    TX-timeout watchdog has kept its shape. *)
Definition extends (w w' : world) : Prop :=
  (exists new, trace w' = trace w ++ new /\ blocks new) /\
  (tx_shape w -> tx_shape w').

(** The interface flag, the interrupt line and the poll watchdog. *)
Definition link_fields (w w' : world) : Prop :=
  sk_bifup w' = sk_bifup w /\
  sk_txpoll w' = sk_txpoll w /\
  irq_enabled w' = irq_enabled w.

(** The interrupt line and the poll watchdog follow the interface flag. *)
Definition link_inv (w : world) : Prop :=
  irq_enabled w = sk_bifup w /\
  sk_txpoll w = (if sk_bifup w then armed_txpoll else Idle) /\
  tx_shape w.

(** What reaches the driver from outside the stack: an interrupt of the
    adapter or the expiry of a watchdog. *)
Definition external (x : (bool * bool * list (list Z)) + wd_id) : op :=
  match x with
  | inl i => raise i
  | inr t => OpExpire t
  end.

(** A connection that has something to send when it is polled. *)
Definition conn_ready (c : list Z * Z) : bool := 0 <? u16 (snd c).

(** Nothing of the driver is waiting to run: the interrupt line is
    disabled and both watchdogs are idle. *)
Definition quiet (w : world) : Prop :=
  irq_enabled w = false /\ sk_txpoll w = Idle /\ sk_txtimeout w = Idle.

(** The Ethernet type the receive path takes for IP. *)
Definition rx_ip_type : Z :=
  if CONFIG_NET_IPv6 P then UIP_ETHTYPE_IP6 else UIP_ETHTYPE_IP.

(** The Ethernet type in the buffer, as the two bytes on the wire give
    it. *)
Definition wire_type (w : world) : Z :=
  byte_at 12 (d_buf w) * 256 + byte_at 13 (d_buf w).

(** ** Readings of "outstanding", the poll pass event by event, and the
    receive loop as written *)

(** What a TX-done, a timeout and an ifdown leave of the transmits that
    were outstanding before them.  The source does not say (its hardware
    accesses are comments), so a reading gives, for each of the three, the
    number left, from the history up to that call and the number
    outstanding before it: a reading may let one call of [skel_txdone]
    complete every transmit, another one transmit, and a third none. *)
Record completion := mkCompletion {
  after_txdone : list event -> nat -> nat;
  after_txtimeout : list event -> nat -> nat;
  after_ifdown : list event -> nat -> nat
}.

(** The transmits outstanding after a history, under a reading [k]: each
    [skel_transmit] admits one.  The first component is the history so
    far. *)
Definition pending_account (k : completion) (st : list event * nat) (e : event)
    : list event * nat :=
  (fst st ++ [e],
   match e with
   | EvCall Ftransmit => S (snd st)
   | EvCall Ftxdone => after_txdone k (fst st) (snd st)
   | EvCall Ftxtimeout => after_txtimeout k (fst st) (snd st)
   | EvCall Fifdown => after_ifdown k (fst st) (snd st)
   | _ => snd st
   end).

Definition pending (k : completion) (tr : list event) : nat :=
  snd (fold_left (pending_account k) tr ([], O)).

(** The reading under which each of the three leaves nothing: what is
    then outstanding are the transmits admitted since the last of them. *)
Definition none_left : completion :=
  mkCompletion (fun _ _ => O) (fun _ _ => O) (fun _ _ => O).

(** The reading under which none of the three completes or resets
    anything. *)
Definition all_left : completion :=
  mkCompletion (fun _ n => n) (fun _ n => n) (fun _ n => n).

(** What the callback [skel_uiptxpoll] adds to the history for one
    connection, and what a pass over [conns] adds. *)
Definition txpoll_events (c : list Z * Z) : list event :=
  if conn_ready c
  then [EvCall Fuiptxpoll; EvUipArpOut] ++ transmit_events
  else [EvCall Fuiptxpoll].

Definition pass_events (conns : list (list Z * Z)) : list event :=
  flat_map txpoll_events conns.

(** What the adapter shows of itself: its pending frames and its two
    status bits. *)
Definition adapter (w : world) : list (list Z) * bool * bool :=
  (hw_rxq w, hw_rx_ready w, hw_tx_done w).

(** The loop of [skel_receive] with the statements the source has, lines
    235-281: the body, then the test.  The source leaves the test empty
    ([while ();]), so it is a parameter: [more] is any test that reads the
    adapter.  The copy from the hardware is a comment in the source and no
    statement of this loop.  [None] when [fuel] passes do not reach the
    end. *)
Fixpoint skel_receive_as_written
    (more : list (list Z) * bool * bool -> bool) (fuel : nat) (w : world)
    : option world :=
  match fuel with
  | O => None
  | S fuel' =>
      let w := skel_receive_frame w in
      if more (adapter w) then skel_receive_as_written more fuel' w else Some w
  end.

(** ** Histories *)

Lemma count_app (p : event -> bool) (a b : list event) :
  count p (a ++ b) = (count p a + count p b)%nat.
Proof.
  unfold count. rewrite filter_app, length_app. reflexivity.
Qed.

Lemma calls_app (f : fn) (a b : list event) :
  calls f (a ++ b) = (calls f a + calls f b)%nat.
Proof. apply count_app. Qed.

Lemma outstanding_snoc (tr : list event) (e : event) :
  outstanding (tr ++ [e]) = tx_account (outstanding tr) e.
Proof.
  unfold outstanding. rewrite fold_left_app. reflexivity.
Qed.



(** ** The data path *)

Lemma datapath_refl (w : world) : datapath w w.
Proof. unfold datapath. tauto. Qed.

Lemma datapath_trans (w1 w2 w3 : world) :
  datapath w1 w2 -> datapath w2 w3 -> datapath w1 w3.
Proof.
  unfold datapath. intros H1 H2.
  destruct H1 as (a1 & b1 & c1 & d1 & e1 & f1 & g1).
  destruct H2 as (a2 & b2 & c2 & d2 & e2 & f2 & g2).
  split; [congruence|]. split; [congruence|]. split; [congruence|].
  split; [congruence|]. split; [congruence|]. split; [congruence|].
  intros H. apply g2, g1, H.
Qed.

Lemma datapath_log (e : event) (w : world) :
  (forall n, tx_account n e = n) -> datapath w (log e w).
Proof.
  intros He. unfold datapath, tx_ok. simpl.
  rewrite outstanding_snoc, He. tauto.
Qed.

Lemma datapath_set_packet (buf : list Z) (len : Z) (w : world) :
  datapath w (set_packet buf len w).
Proof. unfold datapath, tx_ok. simpl. tauto. Qed.

Lemma datapath_set_hw_rxq (q : list (list Z)) (w : world) :
  datapath w (set_hw_rxq q w).
Proof. unfold datapath, tx_ok. simpl. tauto. Qed.

Lemma datapath_stack_returns (w : world) : datapath w (stack_returns w).
Proof. apply datapath_set_packet. Qed.

Lemma skel_transmit_eq (w : world) :
  skel_transmit w =
  (set_txtimeout armed_txtimeout (set_trace (trace w ++ transmit_events) w), OK).
Proof.
  unfold skel_transmit, wd_start, wd_set, log, set_txtimeout, set_trace. simpl.
  rewrite <- app_assoc. reflexivity.
Qed.

Lemma datapath_transmit (w : world) : datapath w (fst (skel_transmit w)).
Proof.
  rewrite skel_transmit_eq. unfold datapath. simpl.
  do 6 (split; [reflexivity|]).
  intros _. unfold tx_ok. simpl. split; [|reflexivity].
  unfold transmit_events.
  change (trace w ++ [EvCall Ftransmit; EvWdStart WdTxTimeout skeleton_TXTIMEOUT Htxtimeout])
    with (trace w ++ [EvCall Ftransmit] ++ [EvWdStart WdTxTimeout skeleton_TXTIMEOUT Htxtimeout]).
  rewrite app_assoc, !outstanding_snoc. reflexivity.
Qed.

Lemma datapath_uip_arp_out (w : world) : datapath w (uip_arp_out w).
Proof.
  unfold uip_arp_out.
  eapply datapath_trans; [apply datapath_log | apply datapath_stack_returns].
  reflexivity.
Qed.

Lemma datapath_uiptxpoll (w : world) : datapath w (fst (skel_uiptxpoll w)).
Proof.
  unfold skel_uiptxpoll. cbv zeta. cbn [fst].
  eapply datapath_trans; [apply (datapath_log (EvCall Fuiptxpoll)); reflexivity|].
  destruct (0 <? d_len (log (EvCall Fuiptxpoll) w)).
  - eapply datapath_trans; [apply datapath_uip_arp_out | apply datapath_transmit].
  - apply datapath_refl.
Qed.

(** ** One pass of the stack over its connections *)

Lemma skel_uiptxpoll_eq (w : world) :
  fst (skel_uiptxpoll w) =
  if 0 <? d_len w
  then fst (skel_transmit (uip_arp_out (log (EvCall Fuiptxpoll) w)))
  else log (EvCall Fuiptxpoll) w.
Proof. reflexivity. Qed.

Lemma poll_pass_callback (w : world) : poll_pass 1 w (fst (skel_uiptxpoll w)).
Proof.
  split; [apply datapath_uiptxpoll|].
  rewrite skel_uiptxpoll_eq. destruct (0 <? d_len w).
  - rewrite skel_transmit_eq. simpl. split; [reflexivity|].
    exists ([EvCall Fuiptxpoll; EvUipArpOut] ++ transmit_events).
    rewrite <- !app_assoc. simpl.
    repeat split; try reflexivity.
    repeat constructor.
  - simpl. split; [reflexivity|].
    exists [EvCall Fuiptxpoll]. repeat split; try reflexivity.
    repeat constructor.
Qed.

Lemma poll_pass_refl (w : world) : poll_pass 0 w w.
Proof.
  split; [apply datapath_refl|]. split; [reflexivity|].
  exists []. rewrite app_nil_r. repeat split; try reflexivity. constructor.
Qed.

Lemma poll_pass_trans (n m : nat) (w1 w2 w3 : world) :
  poll_pass n w1 w2 -> poll_pass m w2 w3 -> poll_pass (n + m) w1 w3.
Proof.
  intros (D1 & Q1 & new1 & T1 & F1 & C1 & A1 & S1)
         (D2 & Q2 & new2 & T2 & F2 & C2 & A2 & S2).
  split; [eapply datapath_trans; eassumption|].
  split; [congruence|].
  exists (new1 ++ new2).
  split; [rewrite T2, T1, app_assoc; reflexivity|].
  split; [apply Forall_app; split; assumption|].
  split; [rewrite calls_app; congruence|].
  split; [rewrite calls_app, count_app; congruence|].
  rewrite S2, S1, calls_app.
  destruct (calls Ftransmit new1), (calls Ftransmit new2); reflexivity.
Qed.

Lemma poll_pass_set_packet (n : nat) (buf : list Z) (len : Z) (w w' : world) :
  poll_pass n (set_packet buf len w) w' -> poll_pass n w w'.
Proof.
  intros (D & Q & new & T & F & C & A & S).
  split; [eapply datapath_trans; [apply datapath_set_packet | exact D]|].
  split; [exact Q|].
  exists new. repeat split; assumption.
Qed.

Lemma uip_foreach_conn_txpoll (conns : list (list Z * Z)) (w : world) :
  snd (uip_foreach_conn skel_uiptxpoll conns w) = 0 /\
  poll_pass (length conns) w (fst (uip_foreach_conn skel_uiptxpoll conns w)).
Proof.
  revert w. induction conns as [|[buf len] rest IH]; intros w.
  - split; [reflexivity | apply poll_pass_refl].
  - cbn [uip_foreach_conn].
    destruct (skel_uiptxpoll (set_packet buf len w)) as [w1 bstop] eqn:E.
    assert (Hb : bstop = 0).
    { change bstop with (snd (w1, bstop)). rewrite <- E. reflexivity. }
    assert (Hw : w1 = fst (skel_uiptxpoll (set_packet buf len w))).
    { rewrite E. reflexivity. }
    subst bstop. cbn [Z.eqb].
    destruct (IH w1) as [Hs Hp]. split; [exact Hs|].
    change (length ((buf, len) :: rest)) with (1 + length rest)%nat.
    eapply poll_pass_trans; [|exact Hp].
    apply (poll_pass_set_packet 1 buf len). rewrite Hw.
    apply poll_pass_callback.
Qed.

Lemma poll_pass_log (n : nat) (e : event) (w w' : world) :
  poll_pass n (log e w) w' ->
  (forall k, tx_account k e = k) ->
  datapath w w' /\ hw_rxq w' = hw_rxq w /\
  exists new,
    trace w' = trace w ++ e :: new /\
    Forall (fun e => is_txpoll_event e = true) new /\
    calls Fuiptxpoll new = n /\
    calls Ftransmit new = count is_uip_arp_out new /\
    sk_txtimeout w' =
      (if (0 <? calls Ftransmit new)%nat then armed_txtimeout else sk_txtimeout w).
Proof.
  intros (D & Q & new & T & F & C & A & S) He.
  split; [eapply datapath_trans; [apply datapath_log, He | exact D]|].
  split; [exact Q|].
  exists new. simpl in T. rewrite <- app_assoc in T. simpl in T.
  repeat split; assumption.
Qed.

(** [uip_poll] with the driver's callback: one [EvUipPoll], then a pass. *)
Lemma uip_poll_txpoll (w : world) :
  snd (uip_poll skel_uiptxpoll w) = 0 /\
  poll_pass (length (stack_conns P (trace w ++ [EvUipPoll])))
            (log EvUipPoll w) (fst (uip_poll skel_uiptxpoll w)).
Proof.
  unfold uip_poll. cbv zeta.
  apply (uip_foreach_conn_txpoll _ (log EvUipPoll w)).
Qed.

Lemma uip_timer_txpoll (hsec : Z) (w : world) :
  snd (uip_timer skel_uiptxpoll hsec w) = 0 /\
  poll_pass (length (stack_conns P (trace w ++ [EvUipTimer hsec])))
            (log (EvUipTimer hsec) w) (fst (uip_timer skel_uiptxpoll hsec w)).
Proof.
  unfold uip_timer. cbv zeta.
  apply (uip_foreach_conn_txpoll _ (log (EvUipTimer hsec) w)).
Qed.

Lemma datapath_uip_poll (w : world) : datapath w (fst (uip_poll skel_uiptxpoll w)).
Proof.
  destruct (uip_poll_txpoll w) as [_ H].
  apply poll_pass_log in H; [tauto | reflexivity].
Qed.

Lemma datapath_uip_timer (hsec : Z) (w : world) :
  datapath w (fst (uip_timer skel_uiptxpoll hsec w)).
Proof.
  destruct (uip_timer_txpoll hsec w) as [_ H].
  apply poll_pass_log in H; [tauto | reflexivity].
Qed.

(** ** Byte order *)

Lemma htons_ethertypes_differ :
  htons UIP_ETHTYPE_ARP <> htons UIP_ETHTYPE_IP /\
  htons UIP_ETHTYPE_ARP <> htons UIP_ETHTYPE_IP6.
Proof.
  unfold htons. destruct (big_endian P); split; vm_compute; discriminate.
Qed.

(** A buffer whose bytes 12 and 13 are [hi] and [lo] reads as
    [htons (hi * 256 + lo)], whatever the byte order of the CPU. *)
Lemma BUF_type_bytes (w : world) (hi lo : Z) :
  0 <= hi < 256 -> 0 <= lo < 256 ->
  byte_at 12 (d_buf w) = hi -> byte_at 13 (d_buf w) = lo ->
  BUF_type w = htons (hi * 256 + lo).
Proof.
  intros Hhi Hlo H12 H13. unfold BUF_type, htons. rewrite H12, H13.
  assert (Hh : Z.land hi 0xff = hi).
  { change 0xff with (Z.ones 8). rewrite Z.land_ones by lia.
    apply Z.mod_small. exact Hhi. }
  assert (Hl : Z.land lo 0xff = lo).
  { change 0xff with (Z.ones 8). rewrite Z.land_ones by lia.
    apply Z.mod_small. exact Hlo. }
  assert (Hsum : hi * 256 + lo = Z.lor (Z.shiftl hi 8) lo).
  { rewrite Z.shiftl_mul_pow2 by lia. change (2 ^ 8) with 256.
    rewrite <- Z.lxor_lor.
    - rewrite <- Z.add_nocarry_lxor; [reflexivity|].
      apply Z.bits_inj'. intros n Hn. rewrite Z.land_spec, Z.bits_0.
      destruct (Z.lt_ge_cases n 8) as [Hlt|Hge].
      + change 256 with (2 ^ 8). rewrite Z.mul_pow2_bits_low by lia. reflexivity.
      + rewrite (Z.bits_above_log2 lo n); [apply andb_false_r | lia |].
        destruct (Z.eq_dec lo 0) as [->|Hnz]; [simpl; lia|].
        apply Z.log2_lt_pow2; [lia|].
        apply Z.lt_le_trans with (2 ^ 8); [simpl; lia|].
        apply Z.pow_le_mono_r; lia.
    - apply Z.bits_inj'. intros n Hn. rewrite Z.land_spec, Z.bits_0.
      destruct (Z.lt_ge_cases n 8) as [Hlt|Hge].
      + change 256 with (2 ^ 8). rewrite Z.mul_pow2_bits_low by lia. reflexivity.
      + rewrite (Z.bits_above_log2 lo n); [apply andb_false_r | lia |].
        destruct (Z.eq_dec lo 0) as [->|Hnz]; [simpl; lia|].
        apply Z.log2_lt_pow2; [lia|].
        apply Z.lt_le_trans with (2 ^ 8); [simpl; lia|].
        apply Z.pow_le_mono_r; lia. }
  destruct (big_endian P).
  - rewrite <- Hsum. change 0xffff with (Z.ones 16).
    rewrite Z.land_ones by lia. rewrite Z.mod_small by lia. reflexivity.
  - f_equal.
    + f_equal. change 0xff with (Z.ones 8). rewrite Z.land_ones by lia.
      rewrite Z.add_comm, Z.mod_add by lia. symmetry. apply Z.mod_small. exact Hlo.
    + rewrite Z.shiftr_div_pow2 by lia. change (2 ^ 8) with 256.
      rewrite Z.div_add_l by lia. rewrite (Z.div_small lo 256) by lia.
      rewrite Z.add_0_r. symmetry. exact Hh.
Qed.

(** ** The receive path *)

Lemma rx_pass_ip (w : world) :
  let w1 := uip_input (uip_arp_ipin w) in
  rx_pass w (if 0 <? d_len w1 then fst (skel_transmit (uip_arp_out w1)) else w1).
Proof.
  intros w1.
  assert (D1 : datapath w w1).
  { unfold w1, uip_input, uip_arp_ipin.
    eapply datapath_trans; [apply (datapath_log EvUipArpIpin); reflexivity|].
    eapply datapath_trans; [apply (datapath_log EvUipInput); reflexivity|].
    apply datapath_stack_returns. }
  destruct (0 <? d_len w1).
  - split.
    { eapply datapath_trans; [exact D1|].
      eapply datapath_trans; [apply datapath_uip_arp_out | apply datapath_transmit]. }
    rewrite skel_transmit_eq. simpl. split; [reflexivity|].
    exists ([EvUipArpIpin; EvUipInput; EvUipArpOut] ++ transmit_events).
    rewrite <- !app_assoc. simpl. repeat split; try reflexivity;
      unfold stack_inputs, count; simpl; lia.
  - split; [exact D1|]. simpl. split; [reflexivity|].
    exists [EvUipArpIpin; EvUipInput].
    rewrite <- !app_assoc. simpl. repeat split; try reflexivity;
      unfold stack_inputs, count; simpl; lia.
Qed.

Lemma rx_pass_arp (w : world) :
  let w1 := uip_arp_arpin w in
  rx_pass w (if 0 <? d_len w1 then fst (skel_transmit w1) else w1).
Proof.
  intros w1.
  assert (D1 : datapath w w1).
  { unfold w1, uip_arp_arpin.
    eapply datapath_trans; [apply (datapath_log EvUipArpArpin); reflexivity|].
    apply datapath_stack_returns. }
  destruct (0 <? d_len w1).
  - split; [eapply datapath_trans; [exact D1 | apply datapath_transmit]|].
    rewrite skel_transmit_eq. simpl. split; [reflexivity|].
    exists ([EvUipArpArpin] ++ transmit_events).
    rewrite <- !app_assoc. simpl. repeat split; try reflexivity;
      unfold stack_inputs, count; simpl; lia.
  - split; [exact D1|]. simpl. split; [reflexivity|].
    exists [EvUipArpArpin]. repeat split; try reflexivity;
      unfold stack_inputs, count; simpl; lia.
Qed.

Lemma rx_pass_drop (w : world) : rx_pass w w.
Proof.
  split; [apply datapath_refl|]. split; [reflexivity|].
  exists []. rewrite app_nil_r. repeat split; try reflexivity;
    unfold stack_inputs, count; simpl; lia.
Qed.

Lemma skel_receive_frame_pass (w : world) : rx_pass w (skel_receive_frame w).
Proof.
  unfold skel_receive_frame.
  destruct (BUF_type w =? htons (if CONFIG_NET_IPv6 P then UIP_ETHTYPE_IP6 else UIP_ETHTYPE_IP)).
  - apply rx_pass_ip.
  - destruct (BUF_type w =? htons UIP_ETHTYPE_ARP).
    + apply rx_pass_arp.
    + apply rx_pass_drop.
Qed.

Lemma hw_receive_into_spec (w : world) :
  datapath w (hw_receive_into w) /\
  hw_rxq (hw_receive_into w) = tl (hw_rxq w) /\
  trace (hw_receive_into w) = trace w ++ [EvRxCopy].
Proof.
  unfold hw_receive_into. destruct (hw_rxq w) as [|f q] eqn:E.
  - split; [apply datapath_log; reflexivity|]. simpl. rewrite E. auto.
  - split.
    + eapply datapath_trans; [apply (datapath_log EvRxCopy); reflexivity|].
      eapply datapath_trans; [apply datapath_set_packet | apply datapath_set_hw_rxq].
    + simpl. auto.
Qed.

Lemma rx_drain_step (n : nat) (w w1 w2 w' : world) :
  trace w1 = trace w ++ [EvRxCopy] -> datapath w w1 ->
  rx_pass w1 w2 -> rx_drain n w2 w' -> rx_drain (S n) w w'.
Proof.
  intros T1 D1 (D2 & Q2 & new2 & T2 & C2 & X2 & S2)
         (D3 & Q3 & new3 & T3 & C3 & X3 & S3).
  split; [eapply datapath_trans; [exact D1|]; eapply datapath_trans; eassumption|].
  split; [exact Q3|].
  exists ([EvRxCopy] ++ new2 ++ new3).
  split; [rewrite T3, T2, T1, <- !app_assoc; reflexivity|].
  rewrite !count_app, !calls_app. unfold stack_inputs in *.
  rewrite !count_app. rewrite C2, C3, X2, X3.
  repeat split; try reflexivity;
    change (count is_stack_input [EvRxCopy]) with 0%nat; lia.
Qed.

Lemma rx_drain_last (w w1 w2 : world) :
  trace w1 = trace w ++ [EvRxCopy] -> datapath w w1 ->
  rx_pass w1 w2 -> hw_rxq w2 = [] -> rx_drain 1 w w2.
Proof.
  intros T1 D1 (D2 & Q2 & new2 & T2 & C2 & X2 & S2) Q.
  split; [eapply datapath_trans; eassumption|].
  split; [exact Q|].
  exists ([EvRxCopy] ++ new2).
  split; [rewrite T2, T1, <- !app_assoc; reflexivity|].
  rewrite !count_app, !calls_app. unfold stack_inputs in *.
  rewrite !count_app. rewrite C2, X2.
  repeat split; try reflexivity;
    change (count is_stack_input [EvRxCopy]) with 0%nat; lia.
Qed.

(** The loop takes one pass for each pending frame, and one when nothing
    is pending; with that much fuel or more it ends by its condition, with
    less it has not ended. *)
Lemma skel_receive_loop_spec (fuel : nat) :
  forall w,
    let n := Nat.max 1 (length (hw_rxq w)) in
    if (n <=? fuel)%nat
    then exists w', skel_receive_loop fuel w = Some w' /\ rx_drain n w w'
    else skel_receive_loop fuel w = None.
Proof.
  induction fuel as [|fuel IH]; intros w n.
  - replace (n <=? 0)%nat with false; [reflexivity|].
    symmetry. apply Nat.leb_gt. unfold n. lia.
  - cbn [skel_receive_loop].
    destruct (hw_receive_into_spec w) as (D1 & Q1 & T1).
    pose proof (skel_receive_frame_pass (hw_receive_into w)) as RP.
    set (w2 := skel_receive_frame (hw_receive_into w)) in *.
    assert (Hq : tl (hw_rxq w) = hw_rxq w2).
    { destruct RP as (_ & Q2 & _). congruence. }
    unfold hw_rx_pending. destruct (hw_rxq w2) as [|g q'] eqn:E2.
    + assert (Hn : n = 1%nat).
      { unfold n. destruct (hw_rxq w) as [|f [|? ?]]; simpl in *;
          try reflexivity; discriminate. }
      rewrite Hn. simpl. exists w2. split; [reflexivity|].
      apply (rx_drain_last w (hw_receive_into w) w2); assumption.
    + specialize (IH w2). cbv zeta in IH. rewrite E2 in IH.
      assert (Hn : n = S (Nat.max 1 (length (g :: q')))).
      { unfold n. destruct (hw_rxq w) as [|f q]; simpl in Hq; [discriminate|].
        rewrite Hq. simpl. destruct (length q'); reflexivity. }
      rewrite Hn.
      change (S (Nat.max 1 (length (g :: q'))) <=? S fuel)%nat
        with (Nat.max 1 (length (g :: q')) <=? fuel)%nat.
      destruct (Nat.max 1 (length (g :: q')) <=? fuel)%nat.
      * destruct IH as (w' & L & R). exists w'. split; [exact L|].
        apply (rx_drain_step _ w (hw_receive_into w) w2 w'); assumption.
      * exact IH.
Qed.

Lemma skel_receive_drains (w : world) :
  rx_drain (Nat.max 1 (length (hw_rxq w))) (log (EvCall Freceive) w) (skel_receive w).
Proof.
  unfold skel_receive. cbv zeta.
  pose proof (skel_receive_loop_spec (S (length (hw_rxq (log (EvCall Freceive) w))))
                (log (EvCall Freceive) w)) as H.
  cbv zeta in H.
  change (hw_rxq (log (EvCall Freceive) w)) with (hw_rxq w) in *.
  replace (Nat.max 1 (length (hw_rxq w)) <=? S (length (hw_rxq w)))%nat with true in H
    by (symmetry; apply Nat.leb_le; lia).
  destruct H as (w' & L & R). rewrite L. exact R.
Qed.

Lemma datapath_receive (w : world) : datapath w (skel_receive w).
Proof.
  eapply datapath_trans; [apply (datapath_log (EvCall Freceive)); reflexivity|].
  apply skel_receive_drains.
Qed.

(** ** The handlers and callbacks, one by one *)

Lemma tx_ok_after_reset (f : fn) (w : world) :
  tx_account (outstanding (trace w)) (EvCall f) = 0%nat ->
  tx_ok (set_txtimeout Idle (log (EvCall f) w)).
Proof.
  intros H. unfold tx_ok. simpl. rewrite outstanding_snoc, H. split; reflexivity.
Qed.

Lemma datapath_txdone (w : world) : datapath w (skel_txdone w).
Proof.
  unfold skel_txdone. cbv zeta.
  eapply datapath_trans; [|apply datapath_uip_poll].
  unfold datapath. simpl. do 6 (split; [reflexivity|]). intros _.
  unfold tx_ok. simpl. rewrite !outstanding_snoc. split; reflexivity.
Qed.

Lemma datapath_interrupt (w : world) : datapath w (fst (skel_interrupt w)).
Proof.
  unfold skel_interrupt. cbv zeta. cbn [fst].
  eapply datapath_trans; [apply (datapath_log (EvCall Finterrupt)); reflexivity|].
  eapply datapath_trans; [apply datapath_receive | apply datapath_txdone].
Qed.

(** The timeout handler, entered as the watchdog enters it: the timer has
    just become idle. *)
Lemma datapath_txtimeout_expired (w : world) :
  datapath w (skel_txtimeout (set_txtimeout Idle w)).
Proof.
  unfold skel_txtimeout. cbv zeta.
  eapply datapath_trans; [|apply datapath_uip_poll].
  unfold datapath. simpl. do 6 (split; [reflexivity|]). intros _.
  apply (tx_ok_after_reset Ftxtimeout). reflexivity.
Qed.

Lemma skel_polltimer_rearms (w : world) :
  sk_txpoll (skel_polltimer w) = armed_txpoll /\
  sk_bifup (skel_polltimer w) = sk_bifup w /\
  irq_enabled (skel_polltimer w) = irq_enabled w /\
  irq_masked (skel_polltimer w) = irq_masked w /\
  (tx_ok w -> tx_ok (skel_polltimer w)).
Proof.
  unfold skel_polltimer. cbv zeta.
  pose proof (datapath_log (EvCall Fpolltimer) w (fun n => eq_refl)) as D0.
  pose proof (datapath_uip_timer skeleton_POLLHSEC (log (EvCall Fpolltimer) w)) as D1.
  pose proof (datapath_trans _ _ _ D0 D1) as D.
  set (w1 := fst (uip_timer skel_uiptxpoll skeleton_POLLHSEC (log (EvCall Fpolltimer) w))) in *.
  destruct D as (a & b & c & d & e & f & g).
  unfold wd_start, wd_set. simpl.
  do 4 (split; [assumption || reflexivity|]).
  intros H. apply g in H. destruct H as [H1 H2].
  unfold tx_ok. simpl. rewrite outstanding_snoc. split; assumption.
Qed.

Lemma skel_ifup_inv (w : world) : driver_inv w -> driver_inv (fst (skel_ifup w)).
Proof.
  intros ((A & E) & _ & _). unfold driver_inv, tx_ok, skel_ifup. simpl.
  rewrite !outstanding_snoc. simpl. repeat split; assumption.
Qed.

Lemma skel_ifdown_inv (w : world) : driver_inv (fst (skel_ifdown w)).
Proof.
  unfold driver_inv, tx_ok, skel_ifdown. simpl.
  rewrite !outstanding_snoc. simpl. repeat split; reflexivity.
Qed.

Lemma driver_inv_datapath (w w' : world) :
  datapath w w' -> driver_inv w -> driver_inv w'.
Proof.
  intros (a & b & c & d & e & f & g) (T & Epoll & L).
  split; [apply g, T|]. split; [rewrite b; exact Epoll | congruence].
Qed.

Lemma irqsave_restore_inv (body : world -> world) (w : world) :
  (forall v, datapath v (body v)) ->
  driver_inv w ->
  driver_inv (irqrestore (snd (irqsave w)) (body (fst (irqsave w)))).
Proof.
  intros Hbody I.
  assert (I1 : driver_inv (fst (irqsave w))).
  { destruct I as ((A & E) & Ep & L). unfold driver_inv, tx_ok. simpl.
    rewrite outstanding_snoc. simpl. repeat split; assumption. }
  apply (driver_inv_datapath _ _ (Hbody _)) in I1.
  destruct I1 as ((A & E) & Ep & L). unfold driver_inv, tx_ok, irqrestore. simpl.
  rewrite outstanding_snoc. simpl. repeat split; assumption.
Qed.

Lemma skel_txavail_inv (w : world) : driver_inv w -> driver_inv (fst (skel_txavail w)).
Proof.
  intros I. unfold skel_txavail. cbv zeta.
  apply (driver_inv_datapath w (log (EvCall Ftxavail) w)) in I;
    [|apply datapath_log; reflexivity].
  apply (irqsave_restore_inv
           (fun v => if sk_bifup v then fst (uip_poll skel_uiptxpoll v) else v)
           (log (EvCall Ftxavail) w)); [|exact I].
  intros v. destruct (sk_bifup v); [apply datapath_uip_poll | apply datapath_refl].
Qed.

Lemma wd_expire_inv (t : wd_id) (w : world) : driver_inv w -> driver_inv (wd_expire t w).
Proof.
  intros I. unfold wd_expire.
  destruct t; simpl.
  - destruct (sk_txpoll w) as [|d h] eqn:E; [exact I|].
    destruct I as (T & Ep & L). rewrite E in Ep. simpl in Ep. subst h.
    destruct (skel_polltimer_rearms (set_txpoll Idle w)) as (a & b & c & _ & g).
    split; [apply g; exact T|]. rewrite a, b, c. split; [reflexivity | exact L].
  - destruct (sk_txtimeout w) as [|d h] eqn:E; [exact I|].
    destruct I as ((A & Et) & Ep & L). rewrite E in Et. simpl in Et. subst h.
    apply (driver_inv_datapath w); [apply datapath_txtimeout_expired|].
    split; [split; [exact A | rewrite E; reflexivity] | split; assumption].
Qed.

Lemma hw_interrupt_inv (rx tx : bool) (frames : list (list Z)) (w : world) :
  driver_inv w -> driver_inv (hw_interrupt rx tx frames w).
Proof.
  intros I. unfold hw_interrupt. cbv zeta.
  set (w1 := set_hw_status rx tx (set_hw_rxq (hw_rxq w ++ frames) w)).
  assert (I1 : driver_inv w1) by exact I.
  destruct (irq_enabled w1); [|exact I1].
  apply (driver_inv_datapath w1); [apply datapath_interrupt | exact I1].
Qed.

Lemma step_inv (o : op) (w : world) : driver_inv w -> driver_inv (step o w).
Proof.
  intros I. destruct o; simpl.
  - apply skel_ifup_inv, I.
  - apply skel_ifdown_inv.
  - apply skel_txavail_inv, I.
  - apply hw_interrupt_inv, I.
  - apply wd_expire_inv, I.
  - apply (driver_inv_datapath w); [apply datapath_transmit | exact I].
  - apply (driver_inv_datapath w); [apply datapath_txdone | exact I].
Qed.

Lemma g_skel_inv : driver_inv g_skel.
Proof. unfold driver_inv, tx_ok. simpl. repeat split; reflexivity. Qed.

Lemma run_inv (ops : list op) (w : world) : driver_inv w -> driver_inv (run ops w).
Proof.
  revert w. induction ops as [|o ops IH]; intros w I; [exact I|].
  simpl. apply IH, step_inv, I.
Qed.

(** Case analysis over the events, for "the poll callback makes no call
    of that kind". *)
Ltac txpoll_cases :=
  let e := fresh "e" in
  intros e; destruct e as [[]| | [] ? [] | | | | | | | | | | | | | |];
  simpl; congruence.

Lemma count_no_txpoll (p : event -> bool) (new : list event) :
  (forall e, is_txpoll_event e = true -> p e = false) ->
  Forall (fun e => is_txpoll_event e = true) new ->
  count p new = 0%nat.
Proof.
  intros Hp. induction 1 as [|e new He _ IH]; [reflexivity|].
  unfold count in *. simpl. rewrite (Hp e He). exact IH.
Qed.

(** ** Readings of completion *)

Lemma pending_account_ge (k : completion) (n : nat) (st : list event * nat) (e : event) :
  (n <= snd st)%nat -> (tx_account n e <= snd (pending_account k st e))%nat.
Proof.
  intros H. destruct e as [f| | | | | | | | | | | | | | | |];
    [destruct f|..]; simpl; lia.
Qed.

Lemma outstanding_le_pending (k : completion) (tr : list event) :
  (outstanding tr <= pending k tr)%nat.
Proof.
  unfold outstanding, pending.
  assert (H : forall n st, (n <= snd st)%nat ->
              (fold_left tx_account tr n <=
               snd (fold_left (pending_account k) tr st))%nat).
  { induction tr as [|e tr IH]; intros n st Hle; [exact Hle|].
    cbn [fold_left]. apply IH, pending_account_ge, Hle. }
  apply H. simpl. lia.
Qed.

Lemma pending_none_left (tr : list event) : pending none_left tr = outstanding tr.
Proof.
  unfold outstanding, pending.
  assert (H : forall st, snd (fold_left (pending_account none_left) tr st) =
                         fold_left tx_account tr (snd st)).
  { induction tr as [|e tr IH]; intros st; [reflexivity|].
    cbn [fold_left]. rewrite IH. f_equal;
      destruct e as [f| | | | | | | | | | | | | | | |]; try destruct f; reflexivity. }
  apply (H ([], O)).
Qed.

(** ** A poll pass, event by event *)

Lemma skel_uiptxpoll_trace (buf : list Z) (len : Z) (w : world) :
  trace (fst (skel_uiptxpoll (set_packet buf len w))) =
  trace w ++ txpoll_events (buf, len).
Proof.
  rewrite skel_uiptxpoll_eq. unfold txpoll_events, conn_ready. cbn [snd].
  change (d_len (set_packet buf len w)) with (u16 len).
  destruct (0 <? u16 len).
  - rewrite skel_transmit_eq. simpl. rewrite <- !app_assoc. reflexivity.
  - reflexivity.
Qed.

Lemma foreach_trace (conns : list (list Z * Z)) :
  forall w,
    trace (fst (uip_foreach_conn skel_uiptxpoll conns w)) =
    trace w ++ pass_events conns.
Proof.
  induction conns as [|[buf len] rest IH]; intros w.
  - simpl. rewrite app_nil_r. reflexivity.
  - cbn [uip_foreach_conn].
    pose proof (skel_uiptxpoll_trace buf len w) as T.
    destruct (skel_uiptxpoll (set_packet buf len w)) as [w1 bstop] eqn:E.
    assert (Hb : bstop = 0).
    { change bstop with (snd (w1, bstop)). rewrite <- E. reflexivity. }
    subst bstop. cbn [Z.eqb fst] in *.
    rewrite IH, T. unfold pass_events. cbn [flat_map].
    rewrite app_assoc. reflexivity.
Qed.

Lemma pass_events_txpoll (conns : list (list Z * Z)) :
  Forall (fun e => is_txpoll_event e = true) (pass_events conns).
Proof.
  induction conns as [|c rest IH]; [constructor|].
  unfold pass_events. cbn [flat_map]. apply Forall_app. split; [|exact IH].
  unfold txpoll_events. destruct (conn_ready c); repeat constructor.
Qed.

Lemma pass_events_counts (conns : list (list Z * Z)) :
  calls Fuiptxpoll (pass_events conns) = length conns /\
  calls Ftransmit (pass_events conns) = length (filter conn_ready conns) /\
  count is_uip_arp_out (pass_events conns) = length (filter conn_ready conns) /\
  count is_uip_poll (pass_events conns) = 0%nat /\
  stack_inputs (pass_events conns) = 0%nat.
Proof.
  induction conns as [|c rest (I1 & I2 & I3 & I4 & I5)]; [repeat split|].
  unfold pass_events, stack_inputs in *. cbn [flat_map filter].
  rewrite !calls_app, !count_app, I1, I2, I3, I4, I5.
  unfold txpoll_events. destruct (conn_ready c); repeat split.
Qed.

Lemma foreach_spec (conns : list (list Z * Z)) (w : world) :
  let w' := fst (uip_foreach_conn skel_uiptxpoll conns w) in
  trace w' = trace w ++ pass_events conns /\
  datapath w w' /\
  hw_rxq w' = hw_rxq w /\
  sk_txtimeout w' =
    (if (0 <? length (filter conn_ready conns))%nat
     then armed_txtimeout else sk_txtimeout w).
Proof.
  intros w'. pose proof (foreach_trace conns w) as T. fold w' in T.
  destruct (uip_foreach_conn_txpoll conns w) as (_ & D & Q & new & T' & _ & _ & _ & S).
  fold w' in D, Q, T', S.
  assert (En : new = pass_events conns).
  { rewrite T in T'. apply app_inv_head in T'. symmetry. exact T'. }
  subst new. destruct (pass_events_counts conns) as (_ & C & _).
  rewrite C in S. auto.
Qed.

Lemma uip_poll_spec (w : world) :
  let conns := stack_conns P (trace w ++ [EvUipPoll]) in
  let w' := fst (uip_poll skel_uiptxpoll w) in
  trace w' = trace w ++ [EvUipPoll] ++ pass_events conns /\
  datapath w w' /\
  hw_rxq w' = hw_rxq w /\
  sk_txtimeout w' =
    (if (0 <? length (filter conn_ready conns))%nat
     then armed_txtimeout else sk_txtimeout w).
Proof.
  intros conns w'.
  destruct (foreach_spec conns (log EvUipPoll w)) as (T & D & Q & S).
  change (fst (uip_foreach_conn skel_uiptxpoll conns (log EvUipPoll w))) with w' in *.
  split; [rewrite T; simpl; rewrite <- app_assoc; reflexivity|].
  split; [eapply datapath_trans; [apply (datapath_log EvUipPoll); reflexivity | exact D]|].
  split; [exact Q | exact S].
Qed.


(** ** The claims *)

(** C1 (amended): in every state the driver reaches from
    [skel_initialize] by its entry points, interrupts and watchdog
    expiries, and by calls of [skel_transmit] and [skel_txdone]: the
    TX-timeout watchdog is armed only when at least one transmit is
    outstanding (there may be more than one), under every reading of what
    each TX-done, timeout and ifdown completes or resets; and it is armed
    from each [skel_transmit] on, until the next [skel_txdone], timeout
    or [skel_ifdown].  Nothing is said of a transmit admitted before a
    [skel_txdone] that did not complete it. *)
Theorem txtimeout_armed_only_with_outstanding (k : completion) (ops : list op) :
  let w := run ops g_skel in
  (wd_armed (sk_txtimeout w) = true -> (1 <= pending k (trace w))%nat) /\
  ((1 <= pending none_left (trace w))%nat -> wd_armed (sk_txtimeout w) = true).
Proof.
  intros w. destruct (run_inv ops g_skel g_skel_inv) as ((A & _) & _).
  fold w in A. split.
  - intros H. rewrite H in A. symmetry in A. apply Nat.ltb_lt in A.
    pose proof (outstanding_le_pending k (trace w)). lia.
  - intros H. rewrite pending_none_left in H. rewrite A. apply Nat.ltb_lt. lia.
Qed.

(** C10: the poll callback answers 0 in every state, so a pass of the
    stack over its connections never stops early: the callback runs once
    for each connection, also after one of them had a packet handed to
    [skel_transmit]. *)
Theorem skel_uiptxpoll_never_stops (w : world) (conns : list (list Z * Z)) :
  snd (skel_uiptxpoll w) = 0 /\
  snd (uip_foreach_conn skel_uiptxpoll conns w) = 0 /\
  calls Fuiptxpoll (trace (fst (uip_foreach_conn skel_uiptxpoll conns w))) =
    (calls Fuiptxpoll (trace w) + length conns)%nat.
Proof.
  split; [reflexivity|].
  destruct (uip_foreach_conn_txpoll conns w) as (S0 & _ & _ & new & T & _ & C & _).
  split; [exact S0|]. rewrite T, calls_app, C. reflexivity.
Qed.

(** C9: [skel_ifdown] is idempotent.  After one call the interrupt line
    is disabled, both watchdogs are idle and the interface is down; a
    second call returns OK like the first, makes the same six calls and
    leaves the device as the first left it.  On a driver that was never
    brought up the first call already changes nothing. *)
Theorem skel_ifdown_idempotent (w : world) :
  let w1 := fst (skel_ifdown w) in
  let w2 := fst (skel_ifdown w1) in
  device_state w2 = device_state w1 /\
  irq_enabled w1 = false /\ sk_txpoll w1 = Idle /\ sk_txtimeout w1 = Idle /\
  sk_bifup w1 = false /\
  snd (skel_ifdown w) = OK /\ snd (skel_ifdown w1) = OK /\
  trace w2 = trace w1 ++ [EvCall Fifdown; EvIrqsave; EvUpDisableIrq;
                          EvWdCancel WdTxPoll; EvWdCancel WdTxTimeout;
                          EvIrqrestore] /\
  device_state (fst (skel_ifdown g_skel)) = device_state g_skel.
Proof.
  unfold skel_ifdown, device_state. simpl.
  rewrite <- !app_assoc. simpl. repeat split; reflexivity.
Qed.

(** C8: [skel_txavail] returns OK.  With the interface down it saves and
    restores the interrupt state and does nothing else: no poll, and the
    device is as before.  With the interface up it is [uip_poll] with the
    callback [skel_uiptxpoll], between [irqsave] and [irqrestore]: the
    stack is polled exactly once, the callback runs once for each
    connection the stack offers, each connection with something to send
    is passed through [uip_arp_out] to [skel_transmit], the TX-timeout
    watchdog is armed if there was one, and the interrupt mask, the
    interface flag, the interrupt line, the poll watchdog and the
    adapter's queue are as before. *)
Theorem skel_txavail_spec (w : world) :
  snd (skel_txavail w) = OK /\
  if sk_bifup w
  then
    let conns := stack_conns P (trace w ++ [EvCall Ftxavail; EvIrqsave; EvUipPoll]) in
    let ready := length (filter conn_ready conns) in
    fst (skel_txavail w) =
      irqrestore (irq_masked w)
        (fst (uip_poll skel_uiptxpoll
                (set_irq_masked true (log EvIrqsave (log (EvCall Ftxavail) w))))) /\
    trace (fst (skel_txavail w)) =
      trace w ++ [EvCall Ftxavail; EvIrqsave; EvUipPoll] ++ pass_events conns
              ++ [EvIrqrestore] /\
    Forall (fun e => is_txpoll_event e = true) (pass_events conns) /\
    count is_uip_poll ([EvCall Ftxavail; EvIrqsave; EvUipPoll] ++ pass_events conns
                       ++ [EvIrqrestore]) = 1%nat /\
    calls Fuiptxpoll (pass_events conns) = length conns /\
    calls Ftransmit (pass_events conns) = ready /\
    count is_uip_arp_out (pass_events conns) = ready /\
    sk_txtimeout (fst (skel_txavail w)) =
      (if (0 <? ready)%nat
       then Armed skeleton_TXTIMEOUT Htxtimeout else sk_txtimeout w) /\
    irq_masked (fst (skel_txavail w)) = irq_masked w /\
    sk_bifup (fst (skel_txavail w)) = true /\
    irq_enabled (fst (skel_txavail w)) = irq_enabled w /\
    sk_txpoll (fst (skel_txavail w)) = sk_txpoll w /\
    hw_rxq (fst (skel_txavail w)) = hw_rxq w
  else fst (skel_txavail w) =
       set_trace (trace w ++ [EvCall Ftxavail; EvIrqsave; EvIrqrestore]) w.
Proof.
  split; [reflexivity|].
  assert (E : fst (skel_txavail w) =
              irqrestore (irq_masked w)
                (if sk_bifup w
                 then fst (uip_poll skel_uiptxpoll
                        (set_irq_masked true (log EvIrqsave (log (EvCall Ftxavail) w))))
                 else set_irq_masked true (log EvIrqsave (log (EvCall Ftxavail) w)))).
  { reflexivity. }
  destruct (sk_bifup w) eqn:Eup.
  - set (v := set_irq_masked true (log EvIrqsave (log (EvCall Ftxavail) w))) in *.
    assert (Ev : trace v ++ [EvUipPoll] =
                 trace w ++ [EvCall Ftxavail; EvIrqsave; EvUipPoll]).
    { unfold v. simpl. rewrite <- !app_assoc. reflexivity. }
    destruct (uip_poll_spec v) as (T & (a & b & c & _) & Q & S).
    rewrite Ev in T, S. cbv zeta.
    set (conns := stack_conns P (trace w ++ [EvCall Ftxavail; EvIrqsave; EvUipPoll])) in *.
    destruct (pass_events_counts conns) as (C1 & C2 & C3 & C4 & _).
    split; [exact E|]. rewrite E.
    split.
    { unfold irqrestore. simpl. rewrite T. unfold v. simpl.
      rewrite <- !app_assoc. reflexivity. }
    split; [apply pass_events_txpoll|].
    split; [rewrite !count_app, C4; reflexivity|].
    split; [exact C1|]. split; [exact C2|]. split; [exact C3|].
    split; [exact S|]. split; [reflexivity|].
    unfold irqrestore. simpl.
    split; [rewrite a; exact Eup|]. split; [exact c|]. split; [exact b | exact Q].
  - rewrite E. unfold irqrestore, set_trace, log. simpl.
    rewrite <- !app_assoc. simpl. rewrite Eup. reflexivity.
Qed.

Lemma skel_polltimer_trace (w : world) :
  exists new,
    trace (skel_polltimer w) =
      trace w ++ [EvCall Fpolltimer; EvUipTimer skeleton_POLLHSEC] ++ new
              ++ [EvWdStart WdTxPoll skeleton_WDDELAY Hpolltimer] /\
    Forall (fun e => is_txpoll_event e = true) new /\
    calls Fuiptxpoll new =
      length (stack_conns P (trace w ++ [EvCall Fpolltimer; EvUipTimer skeleton_POLLHSEC])).
Proof.
  unfold skel_polltimer. cbv zeta.
  destruct (uip_timer_txpoll skeleton_POLLHSEC (log (EvCall Fpolltimer) w)) as [_ H].
  apply poll_pass_log in H; [|reflexivity].
  destruct H as (_ & _ & new & T & F & C & _).
  exists new. unfold wd_start, wd_set. simpl. rewrite T. simpl.
  rewrite <- !app_assoc. simpl. split; [reflexivity|]. split; [exact F|].
  rewrite C. simpl. rewrite <- app_assoc. reflexivity.
Qed.

Lemma skel_polltimer_calls (w : world) :
  calls Fpolltimer (trace (skel_polltimer w)) = S (calls Fpolltimer (trace w)).
Proof.
  destruct (skel_polltimer_trace w) as (new & T & F & _).
  rewrite T, !calls_app.
  unfold calls at 3. rewrite (count_no_txpoll (is_call Fpolltimer) new); [|  | exact F].
  - unfold calls, count. simpl. lia.
  - txpoll_cases.
Qed.

(** C6: every run of the poll-timer handler calls the stack's tick entry
    [uip_timer] with the poll callback and [skeleton_POLLHSEC], and then
    starts the poll watchdog again for [skeleton_WDDELAY], whatever the
    stack did.  So after [skel_ifup] and any number [N] of expiries of
    the poll watchdog the handler has run [N] times and the watchdog is
    armed for the next period. *)
Theorem skel_polltimer_always_rearms (w : world) (N : nat) :
  skel_polltimer w =
    wd_start WdTxPoll skeleton_WDDELAY Hpolltimer
      (fst (uip_timer skel_uiptxpoll skeleton_POLLHSEC (log (EvCall Fpolltimer) w))) /\
  (exists new,
      trace (skel_polltimer w) =
        trace w ++ [EvCall Fpolltimer; EvUipTimer skeleton_POLLHSEC] ++ new
                ++ [EvWdStart WdTxPoll skeleton_WDDELAY Hpolltimer] /\
      Forall (fun e => is_txpoll_event e = true) new) /\
  sk_txpoll (skel_polltimer w) = Armed skeleton_WDDELAY Hpolltimer /\
  let w0 := fst (skel_ifup w) in
  let wN := run (repeat (OpExpire WdTxPoll) N) w0 in
  sk_txpoll wN = Armed skeleton_WDDELAY Hpolltimer /\
  calls Fpolltimer (trace wN) = (calls Fpolltimer (trace w0) + N)%nat.
Proof.
  split; [reflexivity|].
  split.
  { destruct (skel_polltimer_trace w) as (new & T & F & _). exists new. auto. }
  split; [apply skel_polltimer_rearms|].
  intros w0 wN. subst wN.
  assert (H0 : sk_txpoll w0 = armed_txpoll) by reflexivity.
  clearbody w0. revert w0 H0.
  induction N as [|N IH]; intros w0 H0.
  - simpl. split; [exact H0 | lia].
  - change (run (repeat (OpExpire WdTxPoll) (S N)) w0)
      with (run (repeat (OpExpire WdTxPoll) N) (wd_expire WdTxPoll w0)).
    assert (E : wd_expire WdTxPoll w0 = skel_polltimer (set_txpoll Idle w0)).
    { unfold wd_expire. cbn [wd_get]. rewrite H0. reflexivity. }
    rewrite E.
    destruct (IH (skel_polltimer (set_txpoll Idle w0))) as [A B];
      [apply skel_polltimer_rearms|].
    split; [exact A|]. rewrite B, skel_polltimer_calls. simpl. lia.
Qed.

Lemma skel_txtimeout_trace (w : world) :
  datapath (log (EvCall Ftxtimeout) w) (skel_txtimeout w) /\
  hw_rxq (skel_txtimeout w) = hw_rxq w /\
  exists new,
    trace (skel_txtimeout w) = trace w ++ [EvCall Ftxtimeout; EvUipPoll] ++ new /\
    Forall (fun e => is_txpoll_event e = true) new /\
    calls Ftransmit new = count is_uip_arp_out new /\
    sk_txtimeout (skel_txtimeout w) =
      (if (0 <? calls Ftransmit new)%nat then armed_txtimeout else sk_txtimeout w).
Proof.
  unfold skel_txtimeout. cbv zeta.
  destruct (uip_poll_txpoll (log (EvCall Ftxtimeout) w)) as [_ H].
  apply poll_pass_log in H; [|reflexivity].
  destruct H as (D & Q & new & T & F & _ & A & S).
  split; [exact D|]. split; [exact Q|].
  exists new. rewrite T. simpl. rewrite <- app_assoc.
  repeat split; assumption.
Qed.

(** C7 (what the code does): a run of [skel_txtimeout] is one poll of the
    stack and nothing else.  Its history is its own entry, one
    [EvUipPoll], and the calls of the poll callback; the interrupt line,
    the adapter's queue and its status bits are as before; the TX-timeout
    watchdog is started again only by a [skel_transmit] of that poll.  No
    call resets the adapter. *)
Theorem skel_txtimeout_only_polls (w : world) :
  exists new,
    trace (skel_txtimeout w) = trace w ++ [EvCall Ftxtimeout; EvUipPoll] ++ new /\
    Forall (fun e => is_txpoll_event e = true) new /\
    count is_uip_poll ([EvCall Ftxtimeout; EvUipPoll] ++ new) = 1%nat /\
    sk_txtimeout (skel_txtimeout w) =
      (if (0 <? calls Ftransmit new)%nat
       then Armed skeleton_TXTIMEOUT Htxtimeout else sk_txtimeout w) /\
    irq_enabled (skel_txtimeout w) = irq_enabled w /\
    hw_rxq (skel_txtimeout w) = hw_rxq w /\
    hw_rx_ready (skel_txtimeout w) = hw_rx_ready w /\
    hw_tx_done (skel_txtimeout w) = hw_tx_done w.
Proof.
  destruct (skel_txtimeout_trace w) as (D & Q & new & T & F & _ & S).
  destruct D as (_ & _ & c & _ & e & f & _).
  exists new. split; [exact T|]. split; [exact F|].
  split.
  { rewrite count_app.
    rewrite (count_no_txpoll is_uip_poll new); [reflexivity | | exact F].
    txpoll_cases. }
  split; [exact S|]. auto.
Qed.

(** C5: a frame in the buffer whose Ethernet type bytes are 08 06 (ARP)
    is handed to [uip_arp_arpin] and to nothing else.  If that call leaves
    a length greater than zero, [skel_transmit] is called once, on the
    buffer and length [uip_arp_arpin] left, with no [uip_arp_out] before
    it; if it leaves zero, nothing is transmitted. *)
Theorem arp_frame_reply_transmitted_once (w : world) :
  byte_at 12 (d_buf w) = 0x08 ->
  byte_at 13 (d_buf w) = 0x06 ->
  let w1 := uip_arp_arpin w in
  let w' := skel_receive_frame w in
  trace w1 = trace w ++ [EvUipArpArpin] /\
  count is_uip_arp_out (trace w') = count is_uip_arp_out (trace w) /\
  if 0 <? d_len w1
  then w' = fst (skel_transmit w1) /\
       trace w' = trace w ++ [EvUipArpArpin] ++ transmit_events /\
       calls Ftransmit (trace w') = S (calls Ftransmit (trace w)) /\
       d_buf w' = d_buf w1 /\ d_len w' = d_len w1
  else w' = w1 /\
       calls Ftransmit (trace w') = calls Ftransmit (trace w).
Proof.
  intros H12 H13 w1 w'.
  assert (HT : BUF_type w = htons UIP_ETHTYPE_ARP).
  { apply (BUF_type_bytes w 0x08 0x06); [lia | lia | exact H12 | exact H13]. }
  assert (E : w' = if 0 <? d_len w1 then fst (skel_transmit w1) else w1).
  { unfold w', skel_receive_frame. rewrite HT.
    destruct htons_ethertypes_differ as [N4 N6].
    replace (htons UIP_ETHTYPE_ARP =?
             htons (if CONFIG_NET_IPv6 P then UIP_ETHTYPE_IP6 else UIP_ETHTYPE_IP))
      with false.
    - rewrite Z.eqb_refl. reflexivity.
    - symmetry. apply Z.eqb_neq. destruct (CONFIG_NET_IPv6 P); assumption. }
  split; [reflexivity|].
  rewrite E. destruct (0 <? d_len w1).
  - rewrite skel_transmit_eq. cbn [fst]. simpl.
    rewrite <- !app_assoc. simpl.
    split.
    { change (trace w ++ EvUipArpArpin :: transmit_events)
        with (trace w ++ [EvUipArpArpin] ++ transmit_events).
      rewrite count_app. unfold count at 2. simpl. lia. }
    split; [reflexivity|]. split; [reflexivity|].
    split; [|split; reflexivity].
    change (trace w ++ EvUipArpArpin :: transmit_events)
      with (trace w ++ [EvUipArpArpin] ++ transmit_events).
    rewrite calls_app. unfold calls at 2, count. simpl. lia.
  - simpl. rewrite count_app, calls_app.
    change (count is_uip_arp_out [EvUipArpArpin]) with 0%nat.
    change (calls Ftransmit [EvUipArpArpin]) with 0%nat.
    split; [lia|]. split; [reflexivity | lia].
Qed.

Lemma skel_receive_frame_adapter (w : world) :
  adapter (skel_receive_frame w) = adapter w.
Proof.
  destruct (skel_receive_frame_pass w) as ((_ & _ & _ & _ & e & f & _) & Q & _).
  unfold adapter. rewrite Q, e, f. reflexivity.
Qed.

(** C4 (what the code does): the receive loop as the source has it makes
    one pass or never ends.  No statement of its body takes a frame from
    the adapter or changes what the adapter shows, so whatever test of the
    adapter is put where the source has [while ();], the test gives after
    every pass what it gave on entry: where it says "more" the loop does
    not end, however many passes it is given, and where it does not the
    loop ends after its first pass.  It does not take one pass for each
    pending frame. *)
Theorem skel_receive_as_written_one_pass_or_never
    (more : list (list Z) * bool * bool -> bool) (fuel : nat) (w : world) :
  if more (adapter w)
  then skel_receive_as_written more fuel w = None
  else skel_receive_as_written more (S fuel) w = Some (skel_receive_frame w).
Proof.
  destruct (more (adapter w)) eqn:M.
  - revert w M. induction fuel as [|fuel IH]; intros w M; [reflexivity|].
    cbn [skel_receive_as_written]. rewrite skel_receive_frame_adapter, M.
    apply IH. rewrite skel_receive_frame_adapter. exact M.
  - cbn [skel_receive_as_written]. rewrite skel_receive_frame_adapter, M.
    reflexivity.
Qed.


Lemma skel_txdone_trace (w : world) :
  exists new,
    trace (skel_txdone w) =
      trace w ++ [EvCall Ftxdone; EvWdCancel WdTxTimeout; EvUipPoll] ++ new /\
    Forall (fun e => is_txpoll_event e = true) new /\
    sk_txtimeout (skel_txdone w) =
      (if (0 <? calls Ftransmit new)%nat then armed_txtimeout else Idle).
Proof.
  unfold skel_txdone. cbv zeta.
  destruct (uip_poll_txpoll (wd_cancel WdTxTimeout (log (EvCall Ftxdone) w))) as [_ H].
  destruct H as (_ & _ & new & T & F & _ & _ & S).
  exists new. rewrite T, S. simpl. rewrite <- !app_assoc.
  repeat split; auto.
Qed.

(** C3 (what the code does): [skel_interrupt] never looks at the
    adapter's status.  Whatever the RX-ready and TX-done bits are, also
    with both clear, it runs the receive loop (at least one pass) and then
    [skel_txdone]: the TX-timeout watchdog is cancelled and the stack is
    polled once.  The receive loop has returned before [skel_txdone] is
    entered. *)
Theorem skel_interrupt_ignores_status (w : world) (rx tx : bool) :
  let w' := fst (skel_interrupt (set_hw_status rx tx w)) in
  snd (skel_interrupt (set_hw_status rx tx w)) = OK /\
  exists rxnew txnew,
    trace w' =
      trace w ++ [EvCall Finterrupt; EvCall Freceive] ++ rxnew
              ++ [EvCall Ftxdone; EvWdCancel WdTxTimeout; EvUipPoll] ++ txnew /\
    count is_rx_copy rxnew = Nat.max 1 (length (hw_rxq w)) /\
    calls Ftxdone rxnew = 0%nat /\
    Forall (fun e => is_txpoll_event e = true) txnew /\
    sk_txtimeout w' =
      (if (0 <? calls Ftransmit txnew)%nat
       then Armed skeleton_TXTIMEOUT Htxtimeout else Idle).
Proof.
  intros w'. split; [reflexivity|].
  unfold w', skel_interrupt. cbv zeta. cbn [fst].
  set (v := log (EvCall Finterrupt) (set_hw_status rx tx w)).
  destruct (skel_receive_drains v) as (_ & _ & rxnew & T & C & X & _).
  destruct (skel_txdone_trace (skel_receive v)) as (txnew & T2 & F & S).
  exists rxnew, txnew. rewrite T2, T, S. unfold v. simpl.
  rewrite <- !app_assoc. simpl.
  repeat split; auto.
Qed.



(** ** Blocks *)

Lemma blocks_app (a b : list event) : blocks a -> blocks b -> blocks (a ++ b).
Proof.
  induction 1 as [|e tr He _ IH|tr _ IH]; intros Hb.
  - exact Hb.
  - simpl. apply blocks_plain; [exact He | apply IH, Hb].
  - rewrite <- app_assoc. apply blocks_transmit, IH, Hb.
Qed.

Lemma blocks_single (e : event) : is_plain e = true -> blocks [e].
Proof. intros H. apply blocks_plain; [exact H | apply blocks_nil]. Qed.

Lemma blocks_transmit_events : blocks transmit_events.
Proof.
  rewrite <- (app_nil_r transmit_events). apply blocks_transmit, blocks_nil.
Qed.

Lemma blocks_counts (tr : list event) :
  blocks tr -> count is_txtimeout_start tr = calls Ftransmit tr.
Proof.
  induction 1 as [|e tr He _ IH|tr _ IH].
  - reflexivity.
  - change (e :: tr) with ([e] ++ tr). rewrite count_app, calls_app, IH.
    f_equal. unfold calls, count.
    destruct e as [[]| | [] ? ? | | | | | | | | | | | | | |];
      simpl in He; try discriminate; reflexivity.
  - rewrite count_app, calls_app, IH. reflexivity.
Qed.

Lemma blocks_follow (tr : list event) :
  blocks tr ->
  forall a b,
    tr = a ++ EvCall Ftransmit :: b ->
    exists b', b = EvWdStart WdTxTimeout skeleton_TXTIMEOUT Htxtimeout :: b'.
Proof.
  induction 1 as [|e tr He _ IH|tr _ IH]; intros a b E.
  - destruct a; discriminate.
  - destruct a as [|x a].
    + simpl in E. injection E as E1 _. subst e. discriminate He.
    + simpl in E. injection E as _ E2. apply (IH a b E2).
  - destruct a as [|x [|y a]].
    + simpl in E. injection E as E2. exists tr. symmetry. exact E2.
    + simpl in E. injection E as _ E2. discriminate E2.
    + simpl in E. injection E as _ _ E3. apply (IH a b E3).
Qed.

(** ** Every function extends the history by blocks *)

Lemma extends_refl (w : world) : extends w w.
Proof.
  split; [|tauto]. exists []. rewrite app_nil_r. split; [reflexivity | constructor].
Qed.

Lemma extends_trans (w1 w2 w3 : world) :
  extends w1 w2 -> extends w2 w3 -> extends w1 w3.
Proof.
  intros [(n1 & T1 & B1) S1] [(n2 & T2 & B2) S2]. split.
  - exists (n1 ++ n2). rewrite T2, T1, app_assoc.
    split; [reflexivity | apply blocks_app; assumption].
  - intros H. apply S2, S1, H.
Qed.

Lemma extends_same (w w' : world) :
  trace w' = trace w -> sk_txtimeout w' = sk_txtimeout w -> extends w w'.
Proof.
  intros T S. split.
  - exists []. rewrite app_nil_r. split; [exact T | constructor].
  - unfold tx_shape. rewrite S. tauto.
Qed.

Lemma extends_log (e : event) (w : world) :
  is_plain e = true -> extends w (log e w).
Proof.
  intros H. split; [|tauto].
  exists [e]. split; [reflexivity | apply blocks_single, H].
Qed.

Lemma extends_transmit (w : world) : extends w (fst (skel_transmit w)).
Proof.
  rewrite skel_transmit_eq. split.
  - exists transmit_events. split; [reflexivity | apply blocks_transmit_events].
  - intros _. right. reflexivity.
Qed.

Lemma extends_stack_returns (w : world) : extends w (stack_returns w).
Proof. apply extends_same; reflexivity. Qed.

Lemma extends_uip_arp_out (w : world) : extends w (uip_arp_out w).
Proof.
  eapply extends_trans; [apply (extends_log EvUipArpOut); reflexivity|].
  apply extends_stack_returns.
Qed.

Lemma extends_uiptxpoll (w : world) : extends w (fst (skel_uiptxpoll w)).
Proof.
  rewrite skel_uiptxpoll_eq.
  assert (H : extends w (log (EvCall Fuiptxpoll) w))
    by (apply extends_log; reflexivity).
  destruct (0 <? d_len w); [|exact H].
  eapply extends_trans; [exact H|].
  eapply extends_trans; [apply extends_uip_arp_out | apply extends_transmit].
Qed.

Lemma extends_foreach (conns : list (list Z * Z)) :
  forall w, extends w (fst (uip_foreach_conn skel_uiptxpoll conns w)).
Proof.
  induction conns as [|[buf len] rest IH]; intros w.
  - apply extends_refl.
  - cbn [uip_foreach_conn].
    pose proof (extends_uiptxpoll (set_packet buf len w)) as H.
    destruct (skel_uiptxpoll (set_packet buf len w)) as [w1 bstop] eqn:E.
    assert (Hb : bstop = 0).
    { change bstop with (snd (w1, bstop)). rewrite <- E. reflexivity. }
    subst bstop. cbn [Z.eqb fst] in *.
    eapply extends_trans; [|apply IH].
    eapply extends_trans; [|exact H].
    apply extends_same; reflexivity.
Qed.

Lemma extends_uip_poll (w : world) : extends w (fst (uip_poll skel_uiptxpoll w)).
Proof.
  unfold uip_poll. cbv zeta.
  eapply extends_trans; [apply (extends_log EvUipPoll); reflexivity|].
  apply extends_foreach.
Qed.

Lemma extends_uip_timer (hsec : Z) (w : world) :
  extends w (fst (uip_timer skel_uiptxpoll hsec w)).
Proof.
  unfold uip_timer. cbv zeta.
  eapply extends_trans; [apply (extends_log (EvUipTimer hsec)); reflexivity|].
  apply extends_foreach.
Qed.

Lemma extends_receive_frame (w : world) : extends w (skel_receive_frame w).
Proof.
  unfold skel_receive_frame.
  destruct (BUF_type w =? htons (if CONFIG_NET_IPv6 P then UIP_ETHTYPE_IP6 else UIP_ETHTYPE_IP)).
  - cbv zeta.
    assert (H : extends w (uip_input (uip_arp_ipin w))).
    { unfold uip_input, uip_arp_ipin.
      eapply extends_trans; [apply (extends_log EvUipArpIpin); reflexivity|].
      eapply extends_trans; [apply (extends_log EvUipInput); reflexivity|].
      apply extends_stack_returns. }
    destruct (0 <? d_len (uip_input (uip_arp_ipin w))); [|exact H].
    eapply extends_trans; [exact H|].
    eapply extends_trans; [apply extends_uip_arp_out | apply extends_transmit].
  - destruct (BUF_type w =? htons UIP_ETHTYPE_ARP); [|apply extends_refl].
    cbv zeta.
    assert (H : extends w (uip_arp_arpin w)).
    { unfold uip_arp_arpin.
      eapply extends_trans; [apply (extends_log EvUipArpArpin); reflexivity|].
      apply extends_stack_returns. }
    destruct (0 <? d_len (uip_arp_arpin w)); [|exact H].
    eapply extends_trans; [exact H | apply extends_transmit].
Qed.

Lemma extends_receive_into (w : world) : extends w (hw_receive_into w).
Proof.
  unfold hw_receive_into. destruct (hw_rxq w) as [|f q].
  - apply extends_log. reflexivity.
  - eapply extends_trans; [apply (extends_log EvRxCopy); reflexivity|].
    apply extends_same; reflexivity.
Qed.

Lemma extends_receive_loop (fuel : nat) :
  forall w w', skel_receive_loop fuel w = Some w' -> extends w w'.
Proof.
  induction fuel as [|fuel IH]; intros w w' H; [discriminate|].
  cbn [skel_receive_loop] in H.
  assert (H1 : extends w (skel_receive_frame (hw_receive_into w))).
  { eapply extends_trans; [apply extends_receive_into | apply extends_receive_frame]. }
  destruct (hw_rx_pending (skel_receive_frame (hw_receive_into w))).
  - eapply extends_trans; [exact H1 | apply IH, H].
  - injection H as <-. exact H1.
Qed.

Lemma extends_receive (w : world) : extends w (skel_receive w).
Proof.
  unfold skel_receive. cbv zeta.
  assert (H : extends w (log (EvCall Freceive) w)) by (apply extends_log; reflexivity).
  destruct (skel_receive_loop (S (length (hw_rxq (log (EvCall Freceive) w))))
              (log (EvCall Freceive) w)) as [w'|] eqn:E; [|exact H].
  eapply extends_trans; [exact H | apply (extends_receive_loop _ _ _ E)].
Qed.

Lemma extends_wd_set_idle (t : wd_id) (w : world) : extends w (wd_set t Idle w).
Proof.
  split.
  - exists []. rewrite app_nil_r. split; [destruct t; reflexivity | constructor].
  - destruct t; [tauto|]. intros _. left. reflexivity.
Qed.

Lemma extends_wd_cancel (t : wd_id) (w : world) : extends w (wd_cancel t w).
Proof.
  unfold wd_cancel.
  eapply extends_trans; [apply (extends_log (EvWdCancel t)); reflexivity|].
  apply extends_wd_set_idle.
Qed.

Lemma extends_txdone (w : world) : extends w (skel_txdone w).
Proof.
  unfold skel_txdone. cbv zeta.
  eapply extends_trans; [apply (extends_log (EvCall Ftxdone)); reflexivity|].
  eapply extends_trans; [apply extends_wd_cancel | apply extends_uip_poll].
Qed.

Lemma extends_interrupt (w : world) : extends w (fst (skel_interrupt w)).
Proof.
  unfold skel_interrupt. cbv zeta. cbn [fst].
  eapply extends_trans; [apply (extends_log (EvCall Finterrupt)); reflexivity|].
  eapply extends_trans; [apply extends_receive | apply extends_txdone].
Qed.

Lemma extends_txtimeout (w : world) : extends w (skel_txtimeout w).
Proof.
  unfold skel_txtimeout. cbv zeta.
  eapply extends_trans; [apply (extends_log (EvCall Ftxtimeout)); reflexivity|].
  apply extends_uip_poll.
Qed.

Lemma extends_polltimer (w : world) : extends w (skel_polltimer w).
Proof.
  unfold skel_polltimer. cbv zeta.
  eapply extends_trans; [apply (extends_log (EvCall Fpolltimer)); reflexivity|].
  eapply extends_trans; [apply extends_uip_timer|].
  unfold wd_start.
  eapply extends_trans;
    [apply (extends_log (EvWdStart WdTxPoll skeleton_WDDELAY Hpolltimer)); reflexivity|].
  apply extends_same; reflexivity.
Qed.

Lemma extends_ifup (w : world) : extends w (fst (skel_ifup w)).
Proof.
  split; [|tauto].
  exists [EvCall Fifup; EvWdStart WdTxPoll skeleton_WDDELAY Hpolltimer; EvUpEnableIrq].
  split.
  - unfold skel_ifup. simpl. rewrite <- !app_assoc. reflexivity.
  - repeat (apply blocks_plain; [reflexivity|]). apply blocks_nil.
Qed.

Lemma extends_ifdown (w : world) : extends w (fst (skel_ifdown w)).
Proof.
  split; [|intros _; left; reflexivity].
  exists [EvCall Fifdown; EvIrqsave; EvUpDisableIrq; EvWdCancel WdTxPoll;
          EvWdCancel WdTxTimeout; EvIrqrestore].
  split.
  - unfold skel_ifdown. simpl. rewrite <- !app_assoc. reflexivity.
  - repeat (apply blocks_plain; [reflexivity|]). apply blocks_nil.
Qed.

Lemma extends_txavail (w : world) : extends w (fst (skel_txavail w)).
Proof.
  unfold skel_txavail. cbv zeta. cbn [irqsave fst snd].
  set (v := set_irq_masked true (log EvIrqsave (log (EvCall Ftxavail) w))).
  assert (H0 : extends w v).
  { eapply extends_trans; [apply (extends_log (EvCall Ftxavail)); reflexivity|].
    eapply extends_trans; [apply (extends_log EvIrqsave); reflexivity|].
    apply extends_same; reflexivity. }
  assert (H1 : extends v (if sk_bifup v then fst (uip_poll skel_uiptxpoll v) else v)).
  { destruct (sk_bifup v); [apply extends_uip_poll | apply extends_refl]. }
  eapply extends_trans; [exact H0|]. eapply extends_trans; [exact H1|].
  unfold irqrestore.
  eapply extends_trans; [apply (extends_log EvIrqrestore); reflexivity|].
  apply extends_same; reflexivity.
Qed.

Lemma extends_expire (t : wd_id) (w : world) : extends w (wd_expire t w).
Proof.
  unfold wd_expire. destruct (wd_get t w) as [|d []].
  - apply extends_refl.
  - eapply extends_trans; [apply extends_wd_set_idle | apply extends_polltimer].
  - eapply extends_trans; [apply extends_wd_set_idle | apply extends_txtimeout].
Qed.

Lemma extends_hw_interrupt (rx tx : bool) (frames : list (list Z)) (w : world) :
  extends w (hw_interrupt rx tx frames w).
Proof.
  unfold hw_interrupt. cbv zeta.
  set (w1 := set_hw_status rx tx (set_hw_rxq (hw_rxq w ++ frames) w)).
  assert (H : extends w w1) by (apply extends_same; reflexivity).
  destruct (irq_enabled w1); [|exact H].
  eapply extends_trans; [exact H | apply extends_interrupt].
Qed.

Lemma extends_step (o : op) (w : world) : extends w (step o w).
Proof.
  destruct o; simpl.
  - apply extends_ifup.
  - apply extends_ifdown.
  - apply extends_txavail.
  - apply extends_hw_interrupt.
  - apply extends_expire.
  - apply extends_transmit.
  - apply extends_txdone.
Qed.

Lemma extends_run (ops : list op) : forall w, extends w (run ops w).
Proof.
  induction ops as [|o ops IH]; intros w; [apply extends_refl|].
  change (run (o :: ops) w) with (run ops (step o w)).
  eapply extends_trans; [apply extends_step | apply IH].
Qed.

(** ** More of the driver *)

Lemma blocks_g_skel : blocks (trace g_skel).
Proof. simpl. repeat (apply blocks_plain; [reflexivity|]). apply blocks_nil. Qed.

(** X1: in every history of the driver each entry into [skel_transmit] is
    followed at once by the start of the TX-timeout watchdog with the
    delay [60 * CLK_TCK] and the handler [skel_txtimeout], and that
    watchdog is started nowhere else: there are as many starts as
    transmits. *)
Theorem transmit_always_starts_txtimeout (ops : list op) :
  let tr := trace (run ops g_skel) in
  (forall a b,
      tr = a ++ EvCall Ftransmit :: b ->
      exists b', b = EvWdStart WdTxTimeout (60 * CLK_TCK P) Htxtimeout :: b') /\
  count is_txtimeout_start tr = calls Ftransmit tr.
Proof.
  intros tr.
  assert (B : blocks tr).
  { destruct (extends_run ops g_skel) as [(new & T & Bn) _].
    unfold tr. rewrite T. apply blocks_app; [apply blocks_g_skel | exact Bn]. }
  split.
  - intros a b E. apply (blocks_follow tr B a b E).
  - apply blocks_counts, B.
Qed.

Lemma datapath_link_fields (w w' : world) : datapath w w' -> link_fields w w'.
Proof. intros (a & b & c & _). repeat split; assumption. Qed.

Lemma link_inv_preserved (w w' : world) :
  link_fields w w' -> extends w w' -> link_inv w -> link_inv w'.
Proof.
  intros (a & b & c) [_ S] (I1 & I2 & I3).
  unfold link_inv. rewrite a, b, c. repeat split; auto.
Qed.

Lemma skel_txavail_link_fields (w : world) : link_fields w (fst (skel_txavail w)).
Proof.
  unfold skel_txavail. cbv zeta. cbn [irqsave fst snd].
  set (v := set_irq_masked true (log EvIrqsave (log (EvCall Ftxavail) w))).
  assert (H : link_fields v (if sk_bifup v then fst (uip_poll skel_uiptxpoll v) else v)).
  { destruct (sk_bifup v).
    - apply datapath_link_fields, datapath_uip_poll.
    - repeat split. }
  set (X := if sk_bifup v then fst (uip_poll skel_uiptxpoll v) else v) in *.
  destruct H as (a & b & c).
  change (sk_bifup X = sk_bifup w /\ sk_txpoll X = sk_txpoll w /\
          irq_enabled X = irq_enabled w).
  rewrite a, b, c. repeat split.
Qed.

Lemma skel_txtimeout_link_fields (w : world) : link_fields w (skel_txtimeout w).
Proof.
  destruct (skel_txtimeout_trace w) as (D & _).
  apply datapath_link_fields in D. exact D.
Qed.

Lemma link_inv_expire (t : wd_id) (w : world) : link_inv w -> link_inv (wd_expire t w).
Proof.
  intros I. pose proof (extends_expire t w) as [_ S].
  destruct I as (I1 & I2 & I3). specialize (S I3).
  unfold wd_expire in *. destruct t; cbn [wd_get wd_set] in *.
  - destruct (sk_bifup w) eqn:Eup; rewrite I2 in *.
    + unfold armed_txpoll in *.
      destruct (skel_polltimer_rearms (set_txpoll Idle w)) as (a & b & c & _).
      unfold link_inv. rewrite a, b, c. simpl. rewrite Eup. repeat split; auto.
    + unfold link_inv. rewrite Eup. repeat split; auto.
  - destruct I3 as [E|E]; rewrite E in *.
    + unfold link_inv. rewrite I2. repeat split; auto.
    + unfold armed_txtimeout in *.
      destruct (skel_txtimeout_link_fields (set_txtimeout Idle w)) as (a & b & c).
      unfold link_inv. rewrite a, b, c. simpl. repeat split; auto.
Qed.

Lemma link_inv_step (o : op) (w : world) : link_inv w -> link_inv (step o w).
Proof.
  intros I. destruct o; cbn [step].
  - destruct I as (_ & _ & I3). unfold link_inv, skel_ifup. simpl.
    repeat split. exact I3.
  - unfold link_inv, skel_ifdown. simpl. repeat split. left. reflexivity.
  - apply (link_inv_preserved w);
      [apply skel_txavail_link_fields | apply extends_txavail | exact I].
  - unfold hw_interrupt. cbv zeta.
    set (w1 := set_hw_status rx tx (set_hw_rxq (hw_rxq w ++ frames) w)).
    assert (I1 : link_inv w1) by exact I.
    destruct (irq_enabled w1); [|exact I1].
    apply (link_inv_preserved w1);
      [apply datapath_link_fields, datapath_interrupt | apply extends_interrupt | exact I1].
  - apply link_inv_expire, I.
  - apply (link_inv_preserved w);
      [apply datapath_link_fields, datapath_transmit | apply extends_transmit | exact I].
  - apply (link_inv_preserved w);
      [apply datapath_link_fields, datapath_txdone | apply extends_txdone | exact I].
Qed.

(** X2: in every state the driver reaches after [skel_initialize], the
    interrupt line is enabled exactly when the interface is up, the poll
    watchdog is armed (for [1 * CLK_TCK], with [skel_polltimer]) exactly
    when the interface is up, and the TX-timeout watchdog is idle or armed
    for [60 * CLK_TCK] with [skel_txtimeout]. *)
Theorem link_follows_interface_flag (ops : list op) :
  let w := run ops g_skel in
  irq_enabled w = sk_bifup w /\
  sk_txpoll w = (if sk_bifup w then Armed (1 * CLK_TCK P) Hpolltimer else Idle) /\
  (sk_txtimeout w = Idle \/ sk_txtimeout w = Armed (60 * CLK_TCK P) Htxtimeout).
Proof.
  intros w. unfold w. clear w.
  assert (H : forall v, link_inv v -> link_inv (run ops v)).
  { induction ops as [|o ops IH]; intros v I; [exact I|].
    change (run (o :: ops) v) with (run ops (step o v)).
    apply IH, link_inv_step, I. }
  apply (H g_skel). unfold link_inv. simpl. repeat split. left. reflexivity.
Qed.

Lemma step_irq_masked (o : op) (w : world) : irq_masked (step o w) = irq_masked w.
Proof.
  destruct o; cbn [step].
  - reflexivity.
  - reflexivity.
  - reflexivity.
  - unfold hw_interrupt. cbv zeta.
    set (w1 := set_hw_status rx tx (set_hw_rxq (hw_rxq w ++ frames) w)).
    destruct (irq_enabled w1); [|reflexivity].
    destruct (datapath_interrupt w1) as (_ & _ & _ & d & _). exact d.
  - unfold wd_expire. destruct (wd_get t w) as [|d []].
    + reflexivity.
    + destruct (skel_polltimer_rearms (wd_set t Idle w)) as (_ & _ & _ & m & _).
      rewrite m. destruct t; reflexivity.
    + destruct (skel_txtimeout_trace (wd_set t Idle w)) as ((_ & _ & _ & m & _) & _).
      rewrite m. destruct t; reflexivity.
  - destruct (datapath_transmit w) as (_ & _ & _ & d & _). exact d.
  - destruct (datapath_txdone w) as (_ & _ & _ & d & _). exact d.
Qed.

(** X3: no operation of the driver leaks a masked CPU: after any sequence
    of callbacks, interrupts and watchdog expiries, from any state, the
    CPU interrupt mask is what it was ([skel_ifdown] and [skel_txavail]
    restore what [irqsave] returned, nothing else touches it). *)
Theorem cpu_interrupt_mask_restored (ops : list op) (w : world) :
  irq_masked (run ops w) = irq_masked w.
Proof.
  revert w. induction ops as [|o ops IH]; intros w; [reflexivity|].
  change (run (o :: ops) w) with (run ops (step o w)).
  rewrite IH. apply step_irq_masked.
Qed.

Lemma quiet_external (x : (bool * bool * list (list Z)) + wd_id) (w : world) :
  quiet w ->
  quiet (step (external x) w) /\
  trace (step (external x) w) = trace w /\
  sk_bifup (step (external x) w) = sk_bifup w.
Proof.
  intros (Q1 & Q2 & Q3). destruct x as [[[rx tx] frames]|t]; cbn [external raise fst snd step].
  - unfold hw_interrupt. cbv zeta.
    change (irq_enabled (set_hw_status rx tx (set_hw_rxq (hw_rxq w ++ frames) w)))
      with (irq_enabled w).
    rewrite Q1. unfold quiet. simpl. auto.
  - unfold wd_expire. destruct t; cbn [wd_get]; rewrite ?Q2, ?Q3; unfold quiet; auto.
Qed.

(** X4: [skel_ifdown] quiesces the driver.  After it, from any state,
    whatever interrupts the adapter raises and whichever watchdog
    deadlines pass, no driver function is entered and nothing is called:
    the history does not grow, the interface stays down, the line
    disabled and both watchdogs idle. *)
Theorem skel_ifdown_quiesces
    (w : world) (xs : list ((bool * bool * list (list Z)) + wd_id)) :
  let w1 := fst (skel_ifdown w) in
  let w2 := run (map external xs) w1 in
  trace w2 = trace w1 /\
  sk_bifup w2 = false /\ irq_enabled w2 = false /\
  sk_txpoll w2 = Idle /\ sk_txtimeout w2 = Idle.
Proof.
  intros w1 w2.
  assert (Q1 : quiet w1) by (unfold quiet; auto).
  assert (B1 : sk_bifup w1 = false) by reflexivity.
  assert (H : forall v, quiet v ->
              quiet (run (map external xs) v) /\
              trace (run (map external xs) v) = trace v /\
              sk_bifup (run (map external xs) v) = sk_bifup v).
  { clear. induction xs as [|x xs IH]; intros v Q; [auto|].
    change (run (map external (x :: xs)) v)
      with (run (map external xs) (step (external x) v)).
    destruct (quiet_external x v Q) as (Q' & T & B).
    destruct (IH _ Q') as (Q'' & T' & B').
    split; [exact Q''|]. split; congruence. }
  destruct (H w1 Q1) as ((a & b & c) & T & B).
  fold w2 in a, b, c, T, B. rewrite B. auto.
Qed.

(** X5: bringing the interface up and down.  [skel_ifup] leaves the
    interface up, the line enabled and the poll watchdog armed for
    [1 * CLK_TCK], and touches neither the TX-timeout watchdog nor the
    buffer; a second [skel_ifup] restarts the poll watchdog and changes
    nothing else; [skel_ifdown] after [skel_ifup] leaves the device as
    [skel_ifdown] alone does.  Both return OK. *)
Theorem skel_ifup_ifdown_compose (w : world) :
  let up := fst (skel_ifup w) in
  (sk_bifup up = true /\ irq_enabled up = true /\
   sk_txpoll up = Armed (1 * CLK_TCK P) Hpolltimer /\
   sk_txtimeout up = sk_txtimeout w /\ d_buf up = d_buf w /\ d_len up = d_len w) /\
  device_state (fst (skel_ifup up)) = device_state up /\
  device_state (fst (skel_ifdown up)) = device_state (fst (skel_ifdown w)) /\
  snd (skel_ifup w) = OK /\ snd (skel_ifdown up) = OK.
Proof.
  intros up. unfold up, skel_ifup, skel_ifdown, device_state. simpl.
  repeat split.
Qed.

(** X6: [skel_initialize].  When [irq_attach] fails it returns [-EAGAIN]
    having done nothing else: the device is untouched, no watchdog is
    created and the device is not registered.  When it succeeds it
    returns OK with the interface down, an empty buffer and two idle
    watchdogs, registers the device once, and does not enable the
    interrupt line. *)
Theorem skel_initialize_spec (w : world) :
  (snd (skel_initialize true w) = - 11 /\
   device_state (fst (skel_initialize true w)) = device_state w /\
   trace (fst (skel_initialize true w)) = trace w ++ [EvCall Finitialize; EvIrqAttach]) /\
  (snd (skel_initialize false w) = OK /\
   device_state (fst (skel_initialize false w)) =
     (false, Idle, Idle, [], 0, irq_enabled w, irq_masked w, hw_rxq w,
      hw_rx_ready w, hw_tx_done w) /\
   trace (fst (skel_initialize false w)) =
     trace w ++ [EvCall Finitialize; EvIrqAttach; EvWdCreate WdTxPoll;
                 EvWdCreate WdTxTimeout; EvNetdevRegister]).
Proof.
  unfold skel_initialize, device_state. simpl.
  rewrite <- !app_assoc. simpl. repeat split.
Qed.

(** ** The receive dispatch, by Ethernet type *)

Lemma byte_at_range (i : nat) (buf : list Z) : 0 <= byte_at i buf < 256.
Proof.
  unfold byte_at. change 0xff with (Z.ones 8). rewrite Z.land_ones by lia.
  apply Z.mod_pos_bound. reflexivity.
Qed.

Lemma lor_bytes (hi lo : Z) :
  0 <= hi < 256 -> 0 <= lo < 256 -> Z.lor (Z.shiftl hi 8) lo = hi * 256 + lo.
Proof.
  intros Hhi Hlo. rewrite Z.shiftl_mul_pow2 by lia. change (2 ^ 8) with 256.
  assert (Hd : Z.land (hi * 256) lo = 0).
  { apply Z.bits_inj'. intros n Hn. rewrite Z.land_spec, Z.bits_0.
    destruct (Z.lt_ge_cases n 8) as [Hlt|Hge].
    - change 256 with (2 ^ 8). rewrite Z.mul_pow2_bits_low by lia. reflexivity.
    - destruct (Z.eq_dec lo 0) as [->|Hnz];
        [rewrite Z.bits_0; apply andb_false_r|].
      rewrite (Z.bits_above_log2 lo n); [apply andb_false_r | lia |].
      apply Z.lt_le_trans with 8; [|exact Hge].
      apply Z.log2_lt_pow2; [lia|]. change (2 ^ 8) with 256. lia. }
  rewrite <- Z.lxor_lor by exact Hd.
  symmetry. apply Z.add_nocarry_lxor. exact Hd.
Qed.

(** What the CPU reads at [BUF->type], by its byte order. *)
Lemma BUF_type_value (w : world) :
  BUF_type w =
  if big_endian P
  then byte_at 12 (d_buf w) * 256 + byte_at 13 (d_buf w)
  else byte_at 13 (d_buf w) * 256 + byte_at 12 (d_buf w).
Proof.
  unfold BUF_type. destruct (big_endian P); apply lor_bytes; apply byte_at_range.
Qed.

Lemma BUF_type_is (w : world) (hi lo : Z) :
  0 <= hi < 256 -> 0 <= lo < 256 ->
  BUF_type w = htons (hi * 256 + lo) -> wire_type w = hi * 256 + lo.
Proof.
  intros Hhi Hlo. rewrite BUF_type_value.
  assert (Hh : htons (hi * 256 + lo) =
               if big_endian P then hi * 256 + lo else lo * 256 + hi).
  { rewrite <- (BUF_type_bytes
                  (set_packet (repeat 0 12 ++ [hi; lo]) 0 power_on) hi lo Hhi Hlo).
    - rewrite BUF_type_value. unfold byte_at. simpl.
      change 255 with (Z.ones 8). rewrite !Z.land_ones by lia.
      rewrite !Z.mod_small by lia. reflexivity.
    - unfold byte_at. simpl. change 255 with (Z.ones 8).
      rewrite Z.land_ones by lia. apply Z.mod_small. exact Hhi.
    - unfold byte_at. simpl. change 255 with (Z.ones 8).
      rewrite Z.land_ones by lia. apply Z.mod_small. exact Hlo. }
  rewrite Hh. unfold wire_type.
  pose proof (byte_at_range 12 (d_buf w)). pose proof (byte_at_range 13 (d_buf w)).
  destruct (big_endian P); lia.
Qed.

(** X7: a frame of any other Ethernet type is dropped.  When the two type
    bytes of the buffer give neither ARP (0806) nor the IP type the driver
    is configured for (0800, or 86dd with IPv6), the loop body calls
    nothing and changes nothing; on either byte order of the CPU.  So an
    IPv6 frame is dropped by an IPv4 driver, and an IPv4 frame by an IPv6
    driver. *)
Theorem other_ethertypes_dropped (w : world) :
  wire_type w <> UIP_ETHTYPE_ARP ->
  wire_type w <> rx_ip_type ->
  skel_receive_frame w = w.
Proof.
  intros Harp Hip. unfold skel_receive_frame. fold rx_ip_type.
  replace (BUF_type w =? htons rx_ip_type) with false.
  - replace (BUF_type w =? htons UIP_ETHTYPE_ARP) with false; [reflexivity|].
    symmetry. apply Z.eqb_neq. intros E. apply Harp.
    apply (BUF_type_is w 0x08 0x06); [lia | lia | exact E].
  - symmetry. apply Z.eqb_neq. intros E. apply Hip.
    unfold rx_ip_type in *. destruct (CONFIG_NET_IPv6 P).
    + apply (BUF_type_is w 0x86 0xdd); [lia | lia | exact E].
    + apply (BUF_type_is w 0x08 0x00); [lia | lia | exact E].
Qed.

(** X8: a frame of the configured IP type (type bytes 08 00, or 86 dd
    with IPv6) goes through [uip_arp_ipin] and [uip_input].  If
    [uip_input] leaves a length greater than zero the reply is passed
    through [uip_arp_out] and then to [skel_transmit], once; if it leaves
    zero nothing more is called. *)
Theorem ip_frame_reply_resolved_and_transmitted (w : world) :
  wire_type w = rx_ip_type ->
  let w1 := uip_input (uip_arp_ipin w) in
  let w' := skel_receive_frame w in
  trace w1 = trace w ++ [EvUipArpIpin; EvUipInput] /\
  if 0 <? d_len w1
  then w' = fst (skel_transmit (uip_arp_out w1)) /\
       trace w' = trace w ++ [EvUipArpIpin; EvUipInput; EvUipArpOut] ++ transmit_events /\
       sk_txtimeout w' = Armed (60 * CLK_TCK P) Htxtimeout
  else w' = w1 /\ sk_txtimeout w' = sk_txtimeout w.
Proof.
  intros Hty w1 w'.
  assert (HT : BUF_type w = htons rx_ip_type).
  { pose proof (byte_at_range 12 (d_buf w)) as R12.
    pose proof (byte_at_range 13 (d_buf w)) as R13.
    unfold wire_type in Hty. rewrite <- Hty.
    apply (BUF_type_bytes w _ _ R12 R13); reflexivity. }
  assert (E : w' = if 0 <? d_len w1
                   then fst (skel_transmit (uip_arp_out w1)) else w1).
  { unfold w', skel_receive_frame. fold rx_ip_type. rewrite HT, Z.eqb_refl.
    reflexivity. }
  split; [unfold w1; simpl; rewrite <- app_assoc; reflexivity|].
  rewrite E. destruct (0 <? d_len w1).
  - rewrite skel_transmit_eq. cbn [fst]. simpl.
    rewrite <- !app_assoc. repeat split.
  - repeat split.
Qed.

Lemma skel_receive_frame_cases (w : world) :
  skel_receive_frame w = w \/
  (exists w1, trace w1 = trace w ++ [EvUipArpIpin; EvUipInput] /\
     (skel_receive_frame w = w1 \/
      skel_receive_frame w = fst (skel_transmit (uip_arp_out w1)))) \/
  (exists w1, trace w1 = trace w ++ [EvUipArpArpin] /\
     (skel_receive_frame w = w1 \/ skel_receive_frame w = fst (skel_transmit w1))).
Proof.
  unfold skel_receive_frame.
  destruct (BUF_type w =? htons (if CONFIG_NET_IPv6 P then UIP_ETHTYPE_IP6 else UIP_ETHTYPE_IP)).
  - right. left. exists (uip_input (uip_arp_ipin w)). cbv zeta.
    split; [simpl; rewrite <- app_assoc; reflexivity|].
    destruct (0 <? d_len (uip_input (uip_arp_ipin w))); auto.
  - destruct (BUF_type w =? htons UIP_ETHTYPE_ARP); [|left; reflexivity].
    right. right. exists (uip_arp_arpin w). cbv zeta.
    split; [reflexivity|].
    destruct (0 <? d_len (uip_arp_arpin w)); auto.
Qed.

(** X9: what one frame can cause.  Whatever is in the buffer, one pass of
    the loop body adds to the history one of five things and nothing
    else: nothing; [uip_arp_ipin], [uip_input]; these two, then
    [uip_arp_out], then the transmit; [uip_arp_arpin]; or [uip_arp_arpin],
    then the transmit.  So the frame is handed to the stack at most once,
    a transmit comes at most once and only after the frame was handed to
    the stack, [uip_arp_out] is called only right before a transmit, and
    no watchdog is cancelled and the stack is not polled.  The interface
    flag, the interrupt line and the poll watchdog are as before. *)
Theorem one_frame_at_most_one_reply (w : world) :
  exists new,
    trace (skel_receive_frame w) = trace w ++ new /\
    (new = [] \/
     new = [EvUipArpIpin; EvUipInput] \/
     new = [EvUipArpIpin; EvUipInput; EvUipArpOut; EvCall Ftransmit;
            EvWdStart WdTxTimeout (60 * CLK_TCK P) Htxtimeout] \/
     new = [EvUipArpArpin] \/
     new = [EvUipArpArpin; EvCall Ftransmit;
            EvWdStart WdTxTimeout (60 * CLK_TCK P) Htxtimeout]) /\
    (calls Ftransmit new <= stack_inputs new)%nat /\
    (stack_inputs new <= 1)%nat /\
    (count is_uip_arp_out new <= calls Ftransmit new)%nat /\
    count is_txtimeout_cancel new = 0%nat /\
    count is_uip_poll new = 0%nat /\
    sk_bifup (skel_receive_frame w) = sk_bifup w /\
    irq_enabled (skel_receive_frame w) = irq_enabled w /\
    sk_txpoll (skel_receive_frame w) = sk_txpoll w.
Proof.
  destruct (skel_receive_frame_pass w) as ((a & b & c & _) & _).
  destruct (skel_receive_frame_cases w) as [E|[(w1 & T & [E|E])|(w1 & T & [E|E])]].
  - exists []. rewrite E at 1. rewrite app_nil_r.
    split; [reflexivity|]. split; [tauto|].
    repeat split; try assumption; try reflexivity;
      unfold stack_inputs, calls, count; simpl; lia.
  - exists [EvUipArpIpin; EvUipInput]. rewrite E at 1. rewrite T.
    split; [reflexivity|]. split; [tauto|].
    repeat split; try assumption; try reflexivity;
      unfold stack_inputs, calls, count; simpl; lia.
  - exists ([EvUipArpIpin; EvUipInput; EvUipArpOut] ++ transmit_events).
    rewrite E at 1. rewrite skel_transmit_eq. simpl. rewrite T, <- !app_assoc.
    split; [reflexivity|]. split; [right; right; left; reflexivity|].
    repeat split; try assumption; try reflexivity;
      unfold stack_inputs, calls, count; simpl; lia.
  - exists [EvUipArpArpin]. rewrite E at 1. rewrite T.
    split; [reflexivity|]. split; [tauto|].
    repeat split; try assumption; try reflexivity;
      unfold stack_inputs, calls, count; simpl; lia.
  - exists ([EvUipArpArpin] ++ transmit_events).
    rewrite E at 1. rewrite skel_transmit_eq. simpl. rewrite T, <- !app_assoc.
    split; [reflexivity|]. split; [right; right; right; right; reflexivity|].
    repeat split; try assumption; try reflexivity;
      unfold stack_inputs, calls, count; simpl; lia.
Qed.

(** ** What a poll pass transmits *)

(** X10: a pass of the stack over its connections, with the driver's
    callback, adds to the history exactly this, connection by connection
    in the stack's order: the entry into the callback and, if the
    connection had something to send (a length greater than zero when
    polled), [uip_arp_out], then the entry into [skel_transmit], then the
    start of the TX-timeout watchdog; nothing for the others but the
    entry into the callback.  So exactly the ready connections are
    transmitted, each right after its [uip_arp_out], and the TX-timeout
    watchdog is armed after the pass if one of them was ready and is left
    as it was if none was. *)
Theorem poll_transmits_ready_connections (conns : list (list Z * Z)) (w : world) :
  let w' := fst (uip_foreach_conn skel_uiptxpoll conns w) in
  let ready := length (filter conn_ready conns) in
  trace w' =
    trace w ++
    flat_map (fun c =>
                if 0 <? u16 (snd c)
                then [EvCall Fuiptxpoll; EvUipArpOut; EvCall Ftransmit;
                      EvWdStart WdTxTimeout (60 * CLK_TCK P) Htxtimeout]
                else [EvCall Fuiptxpoll]) conns /\
  calls Ftransmit (trace w') = (calls Ftransmit (trace w) + ready)%nat /\
  count is_uip_arp_out (trace w') = (count is_uip_arp_out (trace w) + ready)%nat /\
  sk_txtimeout w' =
    (if (0 <? ready)%nat then Armed (60 * CLK_TCK P) Htxtimeout else sk_txtimeout w).
Proof.
  intros w' ready.
  destruct (foreach_spec conns w) as (T & _ & _ & S). fold w' in T, S.
  destruct (pass_events_counts conns) as (_ & C2 & C3 & _).
  split; [exact T|].
  rewrite T, calls_app, count_app, C2, C3. auto.
Qed.

End Driver.

(** ** The claims on concrete boards *)

(** C1 (as stated, refuted): one TX-done on the initialized driver, on a
    board whose stack has two connections with 60 bytes to send each (74
    with the Ethernet header [uip_arp_out] adds).  The poll of
    [skel_txdone] hands both packets to [skel_transmit], since the
    callback never answers "stop": two transmits are outstanding and the
    TX-timeout watchdog is armed, so "armed exactly when one transmit is
    outstanding" fails. *)
Lemma txtimeout_armed_with_two_outstanding :
  wd_armed (sk_txtimeout
              (run (board ([], 74) [([], 60); ([], 60)]) [OpTxdone] g_skel)) = true /\
  outstanding (trace
              (run (board ([], 74) [([], 60); ([], 60)]) [OpTxdone] g_skel)) = 2%nat /\
  ~ (wd_armed (sk_txtimeout
              (run (board ([], 74) [([], 60); ([], 60)]) [OpTxdone] g_skel)) = true <->
     outstanding (trace
              (run (board ([], 74) [([], 60); ([], 60)]) [OpTxdone] g_skel)) = 1%nat).
Proof.
  split; [reflexivity|]. split; [reflexivity|].
  intros [H _]. specialize (H eq_refl). vm_compute in H. discriminate H.
Qed.



(** C1, what the amendment leaves out: the interface is up and the
    adapter interrupts for one ARP request, with TX-done clear.  The
    reply is handed to [skel_transmit], and [skel_txdone], entered all the
    same, cancels the watchdog just armed: where nothing has been
    completed one transmit is outstanding, and the TX-timeout watchdog is
    idle. *)
Example txtimeout_cancelled_under_a_transmit :
  sk_txtimeout (run (board ([], 28) [])
                  [OpIfup; OpInterrupt true false [arp_frame]] g_skel) = Idle /\
  hw_tx_done (run (board ([], 28) [])
                  [OpIfup; OpInterrupt true false [arp_frame]] g_skel) = false /\
  pending all_left
    (trace (run (board ([], 28) [])
              [OpIfup; OpInterrupt true false [arp_frame]] g_skel)) = 1%nat /\
  pending none_left
    (trace (run (board ([], 28) [])
              [OpIfup; OpInterrupt true false [arp_frame]] g_skel)) = 0%nat.
Proof.
  do 3 (split; [vm_compute; reflexivity|]). vm_compute. reflexivity.
Qed.

(** C5, on a board: an ARP request is copied into the buffer and the
    stack answers with 28 bytes. *)
Lemma arp_frame_reply_transmitted_once_witness :
  byte_at 12 (d_buf (hw_receive_into (set_hw_rxq [arp_frame] g_skel))) = 0x08 /\
  byte_at 13 (d_buf (hw_receive_into (set_hw_rxq [arp_frame] g_skel))) = 0x06 /\
  trace (skel_receive_frame (board ([], 28) [])
           (hw_receive_into (set_hw_rxq [arp_frame] g_skel))) =
    trace g_skel ++ [EvRxCopy; EvUipArpArpin; EvCall Ftransmit;
                     EvWdStart WdTxTimeout 6000 Htxtimeout] /\
  d_len (skel_receive_frame (board ([], 28) [])
           (hw_receive_into (set_hw_rxq [arp_frame] g_skel))) = 28.
Proof.
  split; [reflexivity|]. split; [reflexivity|].
  pose proof (arp_frame_reply_transmitted_once (board ([], 28) [])
                (hw_receive_into (set_hw_rxq [arp_frame] g_skel))
                eq_refl eq_refl) as H.
  cbv zeta in H. destruct H as (_ & _ & H).
  change (0 <? d_len (uip_arp_arpin (board ([], 28) [])
                        (hw_receive_into (set_hw_rxq [arp_frame] g_skel))))
    with true in H.
  destruct H as (_ & T & _ & _ & L).
  split; [exact T | exact L].
Defined.

(** C3, on a board: the adapter interrupts with both status bits clear
    while one ARP request is pending.  The reply is transmitted, which
    arms the TX-timeout watchdog, and [skel_txdone] then cancels it,
    although no transmission was reported done. *)
Example skel_interrupt_with_status_clear :
  trace (run (board ([], 28) [])
           [OpIfup; OpInterrupt false false [arp_frame]] g_skel) =
    trace g_skel ++
    [EvCall Fifup; EvWdStart WdTxPoll 100 Hpolltimer; EvUpEnableIrq;
     EvCall Finterrupt; EvCall Freceive; EvRxCopy; EvUipArpArpin;
     EvCall Ftransmit; EvWdStart WdTxTimeout 6000 Htxtimeout;
     EvCall Ftxdone; EvWdCancel WdTxTimeout; EvUipPoll] /\
  sk_txtimeout (run (board ([], 28) [])
           [OpIfup; OpInterrupt false false [arp_frame]] g_skel) = Idle.
Proof. split; reflexivity. Qed.

(** C7, on a board: a transmit is admitted and its watchdog expires.  The
    handler polls the stack, which has nothing to send, and the device is
    what it was before the transmit: nothing was reset. *)
Example skel_txtimeout_after_stalled_transmit :
  trace (run (board ([], 28) []) [OpTransmit; OpExpire WdTxTimeout] g_skel) =
    trace g_skel ++
    [EvCall Ftransmit; EvWdStart WdTxTimeout 6000 Htxtimeout;
     EvCall Ftxtimeout; EvUipPoll] /\
  device_state (run (board ([], 28) []) [OpTransmit; OpExpire WdTxTimeout] g_skel) =
    device_state g_skel.
Proof. split; reflexivity. Qed.

(** ** The receive dispatch on concrete boards *)

(** X7, on a board: an IPv6 frame (type 86 dd) copied into the buffer of
    an IPv4 driver is dropped. *)
Lemma other_ethertypes_dropped_witness :
  wire_type (hw_receive_into
               (set_hw_rxq [eth_header 0x86 0xdd ++ repeat 0 40] g_skel))
    <> UIP_ETHTYPE_ARP /\
  wire_type (hw_receive_into
               (set_hw_rxq [eth_header 0x86 0xdd ++ repeat 0 40] g_skel))
    <> rx_ip_type (board ([], 28) []) /\
  skel_receive_frame (board ([], 28) [])
    (hw_receive_into (set_hw_rxq [eth_header 0x86 0xdd ++ repeat 0 40] g_skel)) =
  hw_receive_into (set_hw_rxq [eth_header 0x86 0xdd ++ repeat 0 40] g_skel).
Proof.
  split; [vm_compute; discriminate|]. split; [vm_compute; discriminate|].
  apply (other_ethertypes_dropped (board ([], 28) [])
           (hw_receive_into (set_hw_rxq [eth_header 0x86 0xdd ++ repeat 0 40] g_skel)));
    vm_compute; discriminate.
Defined.

(** X8, on a board: an IPv4 datagram is copied into the buffer and the
    stack answers with 28 bytes. *)
Lemma ip_frame_reply_resolved_and_transmitted_witness :
  wire_type (hw_receive_into (set_hw_rxq [ip_frame] g_skel)) =
    rx_ip_type (board ([], 28) []) /\
  trace (skel_receive_frame (board ([], 28) [])
           (hw_receive_into (set_hw_rxq [ip_frame] g_skel))) =
    trace g_skel ++ [EvRxCopy; EvUipArpIpin; EvUipInput; EvUipArpOut;
                     EvCall Ftransmit; EvWdStart WdTxTimeout 6000 Htxtimeout] /\
  sk_txtimeout (skel_receive_frame (board ([], 28) [])
           (hw_receive_into (set_hw_rxq [ip_frame] g_skel))) =
    Armed 6000 Htxtimeout.
Proof.
  split; [reflexivity|].
  pose proof (ip_frame_reply_resolved_and_transmitted (board ([], 28) [])
                (hw_receive_into (set_hw_rxq [ip_frame] g_skel)) eq_refl) as H.
  cbv zeta in H. destruct H as (_ & H).
  change (0 <? d_len (uip_input (board ([], 28) [])
                        (uip_arp_ipin (hw_receive_into (set_hw_rxq [ip_frame] g_skel)))))
    with true in H.
  destruct H as (_ & T & S). split; [exact T | exact S].
Defined.
